(** * libnspire: the screenshot service (services/screenshot.c)

    A shallow embedding of [rle_decode] and [nspire_screenshot] and the
    properties of the run-length decoder, the packet reassembly loop, the
    header layout and the connection life cycle. *)

From Stdlib.Strings Require Import Byte Ascii String.
From Stdlib Require Import ZArith List Lia Bool.
Import ListNotations.
Local Open Scope Z_scope.

(** ** C integer types

    The code mixes [uint8_t], [int8_t], [int], [uint32_t] and [size_t].
    Values are integers in [Z]; every conversion the C code performs is
    written out as a wrap.  [size_t] is 64 bits wide and [int] 32 bits
    (LP64). *)

Module CInt.

Definition to_size_t (z : Z) : Z := z mod 2 ^ 64.
Definition to_uint32 (z : Z) : Z := z mod 2 ^ 32.
Definition to_uint16 (z : Z) : Z := z mod 2 ^ 16.
Definition to_int (z : Z) : Z := (z + 2 ^ 31) mod 2 ^ 32 - 2 ^ 31.
Definition to_int8 (z : Z) : Z := (z + 2 ^ 7) mod 2 ^ 8 - 2 ^ 7.

(** The value of a byte read through a [uint8_t *]. *)
Definition u8 (b : byte) : Z := Z.of_N (Byte.to_N b).

(** The conversion of a value to [uint8_t]. *)
Definition to_uint8 (z : Z) : byte :=
  match Byte.of_N (Z.to_N (z mod 2 ^ 8)) with
  | Some b => b
  | None => x00
  end.

Definition size_t_range (z : Z) : Prop := 0 <= z < 2 ^ 64.

End CInt.
Import CInt.

(** ** Memory

    A buffer is the list of its bytes; a pointer into it is an offset from
    its first byte.  A load or a copy that leaves the buffer has no result. *)

Module Mem.

Definition load (m : list byte) (p : Z) : option byte :=
  if p <? 0 then None else nth_error m (Z.to_nat p).

(** [memcpy dst dp src sp n]: copy [n] bytes from offset [sp] of [src] to
    offset [dp] of [dst]; source and destination are distinct buffers. *)
Definition memcpy (dst : list byte) (dp : Z) (src : list byte) (sp : Z) (n : Z)
  : option (list byte) :=
  if (0 <=? n) && (0 <=? dp) && (dp + n <=? Z.of_nat (length dst))
     && (0 <=? sp) && (sp + n <=? Z.of_nat (length src))
  then Some (firstn (Z.to_nat dp) dst
             ++ firstn (Z.to_nat n) (skipn (Z.to_nat sp) src)
             ++ skipn (Z.to_nat (dp + n)) dst)
  else None.

End Mem.
Import Mem.

(** ** The run-length decoder *)

Module RLE.

(** The mutable locals of [rle_decode]: the two cursors, the two remaining
    lengths and the contents of the output buffer.  [inp] is the offset of
    the pointer [in] in the input buffer, [out] that of [out]. *)
Record state : Type := mkState {
  inp : Z;
  in_size : Z;
  out_buf : list byte;
  out : Z;
  out_size : Z
}.

Inductive step : Type :=
| Next (s : state)     (* the body ran to its end *)
| Ret (s : state)      (* the body executed [return] *)
| Fault.               (* an access outside a buffer *)

Inductive exit : Type := LoopExit | EarlyReturn.

Inductive outcome : Type :=
| Finished (e : exit) (s : state)
| MemFault
| OutOfFuel.

(** [const size_t rle_size = (bpp * 2) / 8;] *)
Definition rle_size (bpp : byte) : Z := to_size_t (Z.quot (u8 bpp * 2) 8).

(** [for (int i = 0; i < len + 1; ++i)], with [n] iterations left. *)
Fixpoint repeat_run (n : nat) (rle_size : Z) (in_buf : list byte) (s : state)
  : option state :=
  match n with
  | O => Some s
  | S n' =>
    if out_size s <? rle_size then Some s
    else
      match memcpy (out_buf s) (out s) in_buf (inp s) rle_size with
      | None => None
      | Some m =>
        repeat_run n' rle_size in_buf
          (mkState (inp s) (in_size s) m
                   (out s + rle_size) (to_size_t (out_size s - rle_size)))
      end
  end.

(** The body of the [while] loop. *)
Definition rle_body (rle_size : Z) (in_buf : list byte) (s : state) : step :=
  match load in_buf (inp s) with
  | None => Fault
  | Some b =>
    let len := to_int8 (u8 b) in
    let inp1 := inp s + 1 in
    let in_size1 := to_size_t (in_size s - 1) in
    if len <? 0 then
      let len := to_int (to_size_t (to_size_t (to_int (- len + 1)) * rle_size)) in
      let len := to_int (if to_size_t len <? out_size s
                         then to_size_t len else out_size s) in
      let len := to_int (if to_size_t len <? in_size1
                         then to_size_t len else in_size1) in
      match memcpy (out_buf s) (out s) in_buf inp1 (to_size_t len) with
      | None => Fault
      | Some m =>
        Next (mkState (inp1 + len) (to_size_t (in_size1 - to_size_t len)) m
                      (out s + len) (to_size_t (out_size s - to_size_t len)))
      end
    else
      let s1 := mkState inp1 in_size1 (out_buf s) (out s) (out_size s) in
      if in_size1 <? rle_size then Ret s1
      else
        match repeat_run (Z.to_nat (to_int (len + 1))) rle_size in_buf s1 with
        | None => Fault
        | Some s2 =>
          Next (mkState (inp s2 + rle_size) (to_size_t (in_size s2 - rle_size))
                        (out_buf s2) (out s2) (out_size s2))
        end
  end.

(** [while (in_size > 1 && out_size)] *)
Definition loop_cond (s : state) : bool :=
  (1 <? in_size s) && negb (out_size s =? 0).

Fixpoint rle_loop (fuel : nat) (rle_size : Z) (in_buf : list byte) (s : state)
  : outcome :=
  if loop_cond s then
    match fuel with
    | O => OutOfFuel
    | S fuel' =>
      match rle_body rle_size in_buf s with
      | Next s' => rle_loop fuel' rle_size in_buf s'
      | Ret s' => Finished EarlyReturn s'
      | Fault => MemFault
      end
    end
  else Finished LoopExit s.

(** Every iteration consumes the control byte, so [in_size] iterations
    are never exceeded. *)
Definition rle_decode (bpp : byte) (in_buf out_buf : list byte)
  (in_size out_size : Z) : outcome :=
  rle_loop (Z.to_nat in_size) (rle_size bpp) in_buf
           (mkState 0 in_size out_buf 0 out_size).

End RLE.
Import RLE.

(** ** A literal-run encoder *)

Module Encoder.

(** The control byte of a literal run of [m] units: the signed value
    [1 - m], so that [-code + 1 = m]. *)
Definition literal_code (m : Z) : byte := to_uint8 (1 - m).

(** The literal-run encoder of the round-trip property, written after the
    words of the specification (the repository holds no encoder).  The raw
    bytes are cut into runs of [m] units of [unit] bytes; each run is its
    control byte followed by its bytes, and the last run holds what is
    left. *)
Fixpoint literal_runs (fuel : nat) (unit m : Z) (raw : list byte)
  : list byte :=
  match fuel with
  | O => []
  | S fuel' =>
    match raw with
    | [] => []
    | _ :: _ =>
      let n := Z.to_nat (m * unit) in
      literal_code m :: firstn n raw
        ++ literal_runs fuel' unit m (skipn n raw)
    end
  end.

Definition literal_encode (bpp : byte) (m : Z) (raw : list byte) : list byte :=
  literal_runs (length raw) (rle_size bpp) m raw.

End Encoder.
Import Encoder.

(** ** The screenshot service *)

Module Screenshot.

(** *** The collaborators

    [service_connect], [data_write8], [data_read], [data_scan], [malloc]
    and [packet_max_datasize] live outside screenshot.c.  What they answer
    is given by a [world]; what is asked of them is recorded as a trace of
    events. *)

Inductive event : Type :=
| Ev_service_connect (sid : Z)
| Ev_data_write8 (v : Z)
| Ev_data_read
| Ev_malloc (n : Z)
| Ev_free_tmp
| Ev_free_i
| Ev_service_disconnect.

Record world : Type := mkWorld {
  packet_max_datasize : Z;
  service_connect_ret : Z;
  data_write8_ret : Z;
  (* the n-th call of data_read: its return value and the contents of the
     buffer after it *)
  data_read_ret : nat -> Z;
  data_read_buf : nat -> list byte;
  (* whether malloc succeeds, and what the fresh memory holds *)
  malloc_tmp_ok : bool;
  malloc_i_ok : bool;
  heap_junk : nat -> byte
}.

Definition malloc_bytes (w : world) (n : Z) : list byte :=
  map (heap_junk w) (seq 0 (Z.to_nat n)).

(** Modelled from the spec: the width in bytes of a field of the format
    string of [data_scan] (data.c is not among the sources): an 8-bit
    field, a 16-bit field and a 32-bit field. *)
Definition field_width (c : ascii) : option nat :=
  if Ascii.eqb c "b" then Some 1%nat
  else if Ascii.eqb c "h" then Some 2%nat
  else if Ascii.eqb c "w" then Some 4%nat
  else None.

(** Little-endian value of a field. *)
Fixpoint le_value (bs : list byte) : Z :=
  match bs with
  | [] => 0
  | b :: bs' => u8 b + 2 ^ 8 * le_value bs'
  end.

(** Modelled from the spec: [data_scan] (data.c is not among the sources)
    reads the fields of the format string one after the other from the
    buffer, multi-byte fields little-endian, and fails when the buffer is
    shorter than the layout.  The result holds the value of every field,
    in order; the caller picks those whose destination is not [NULL]. *)
Fixpoint data_scan (format : string) (buffer : list byte) : option (list Z) :=
  match format with
  | EmptyString => Some []
  | String c format' =>
    match field_width c with
    | None => None
    | Some n =>
      if (length buffer <? n)%nat then None
      else
        match data_scan format' (skipn n buffer) with
        | None => None
        | Some vs => Some (le_value (firstn n buffer) :: vs)
        end
    end
  end.

Record header : Type := mkHeader {
  h_size : Z;
  h_width : Z;
  h_height : Z;
  h_bpp : byte
}.

(** [data_scan("bwhhhhbb", buffer, sizeof(buffer),
              NULL, &size, NULL, NULL, &width, &height, &bpp, NULL)] *)
Definition scan_header (buffer : list byte) (sizeof_buffer : Z)
  : option header :=
  match data_scan "bwhhhhbb" (firstn (Z.to_nat sizeof_buffer) buffer) with
  | Some [_; size; _; _; width; height; bpp; _] =>
    Some (mkHeader (to_uint32 size) (to_uint16 width) (to_uint16 height)
                   (to_uint8 bpp))
  | _ => None
  end.

Record nspire_image : Type := mkImage {
  width : Z;
  height : Z;
  bpp : byte;
  data : list byte
}.

Record result : Type := mkResult {
  ret : Z;
  ptr : option nspire_image;
  trace : list event
}.

Inductive run : Type :=
| Returns (r : result)
| Undefined      (* an access outside a buffer *)
| NoFuel.

(** *** The reassembly loop

    [while (size) { ... }]: [k] counts the calls of [data_read] so far. *)
Inductive reassembled : Type :=
| Filled (tmp : list byte) (k : nat)
| ReadError (e : Z) (k : nat)
| BadCopy
| Unfinished.

Fixpoint reassemble (fuel : nat) (w : world) (maxsize : Z) (k : nat)
  (tmp : list byte) (tmp_ptr : Z) (size : Z) : reassembled :=
  if size =? 0 then Filled tmp k
  else
    match fuel with
    | O => Unfinished
    | S fuel' =>
      let ret := data_read_ret w k in
      if negb (ret =? 0) then ReadError ret (S k)
      else
        let buffer := data_read_buf w k in
        let len := if maxsize <? size then maxsize else size in
        match memcpy tmp tmp_ptr buffer 1 len with
        | None => BadCopy
        | Some tmp' =>
          reassemble fuel' w maxsize (S k) tmp' (tmp_ptr + len)
                     (to_uint32 (size - len))
        end
    end.

Section Codes.

(** The error codes of error.h. *)
Variable NSPIRE_ERR_SUCCESS : Z.
Variable NSPIRE_ERR_NOMEM : Z.
(** The value [data_scan] returns when it fails. *)
Variable data_scan_error : Z.

(** The label [end:]. *)
Definition at_end (tmp : bool) (ret : Z) (ptr : option nspire_image)
  (tr : list event) : run :=
  Returns (mkResult ret ptr
             (tr ++ (if tmp then [Ev_free_tmp] else [])
                 ++ [Ev_service_disconnect])).

(** The label [error_free:], which falls through to [end:]; [i] is not
    [NULL] wherever the code jumps to it. *)
Definition at_error_free (ret : Z) (tr : list event) : run :=
  at_end true ret None (tr ++ [Ev_free_i]).

(** [nspire_screenshot].  The products of [out_len] are those of [int].
    [Ev_malloc] records the size of the data of the image, without the
    size of its header.  The reassembly gets [size] iterations, which is
    enough as soon as a packet brings one byte. *)
Definition nspire_screenshot (w : world) : run :=
  let sizeof_buffer := to_size_t (packet_max_datasize w) in
  let tr := [Ev_service_connect 0x4024] in
  let ret := service_connect_ret w in
  if negb (ret =? 0) then Returns (mkResult ret None tr)
  else
  let tr := tr ++ [Ev_data_write8 0] in
  let ret := data_write8_ret w in
  if negb (ret =? 0) then Returns (mkResult ret None tr)
  else
  let tr := tr ++ [Ev_data_read] in
  let ret := data_read_ret w 0 in
  if negb (ret =? 0) then at_end false ret None tr
  else
  match scan_header (data_read_buf w 0) sizeof_buffer with
  | None => at_end false data_scan_error None tr
  | Some h =>
    let size := h_size h in
    let tr := tr ++ [Ev_malloc size] in
    if negb (malloc_tmp_ok w) then at_end false (- NSPIRE_ERR_NOMEM) None tr
    else
    let tmp := malloc_bytes w size in
    let in_len := size in
    let out_len :=
      to_size_t
        (Z.quot (to_int (to_int (h_width h * h_height h) * u8 (h_bpp h))) 8) in
    let tr := tr ++ [Ev_malloc out_len] in
    if negb (malloc_i_ok w) then at_end true (- NSPIRE_ERR_NOMEM) None tr
    else
    let i_data := malloc_bytes w out_len in
    let maxsize := to_size_t (packet_max_datasize w - 1) in
    match reassemble (Z.to_nat size) w maxsize 1 tmp 0 size with
    | Unfinished => NoFuel
    | BadCopy => Undefined
    | ReadError ret k =>
      at_error_free ret (tr ++ repeat Ev_data_read (k - 1))
    | Filled tmp k =>
      let tr := tr ++ repeat Ev_data_read (k - 1) in
      match rle_decode (h_bpp h) tmp i_data in_len out_len with
      | Finished _ s =>
        at_end true NSPIRE_ERR_SUCCESS
          (Some (mkImage (h_width h) (h_height h) (h_bpp h) (out_buf s))) tr
      | MemFault => Undefined
      | OutOfFuel => NoFuel
      end
    end
  end.

End Codes.

End Screenshot.
Import Screenshot.

(** ** Vocabulary of the properties *)

Module Props.

(** The buffer [dst] with the bytes [bs] written at offset [p]. *)
Definition write_at (dst : list byte) (p : Z) (bs : list byte) : list byte :=
  firstn (Z.to_nat p) dst ++ bs ++ skipn (Z.to_nat p + length bs) dst.

(** The [n] bytes of [m] from offset [p] on. *)
Definition bytes_at (m : list byte) (p : Z) (n : Z) : list byte :=
  firstn (Z.to_nat n) (skipn (Z.to_nat p) m).

(** The cursors of a state of the decoder lie in the buffers, with the
    remaining lengths in front of them. *)
Definition wf (in_buf : list byte) (s : state) : Prop :=
  0 <= inp s /\ inp s + in_size s <= Z.of_nat (length in_buf)
  /\ size_t_range (in_size s)
  /\ 0 <= out s /\ out s + out_size s <= Z.of_nat (length (out_buf s))
  /\ size_t_range (out_size s).

(** What holds when the loop of [rle_decode] is left: the loop condition
    is false, or the body returned on a repeat run that [in_size] bytes
    cannot satisfy (the control byte is the one just before the cursor). *)
Definition exit_ok (bpp : byte) (in_buf : list byte) (e : exit) (s : state)
  : Prop :=
  match e with
  | LoopExit => in_size s <= 1 \/ out_size s = 0
  | EarlyReturn =>
    exists b, load in_buf (inp s - 1) = Some b
              /\ 0 <= to_int8 (u8 b) /\ in_size s < rle_size bpp
  end.

(** The state [s] when [more] bytes lie behind the output buffer. *)
Definition extend (more : list byte) (s : state) : state :=
  mkState (inp s) (in_size s) (out_buf s ++ more) (out s) (out_size s).

Definition lift_step (y : list byte) (r : step) : step :=
  match r with
  | Next s => Next (extend y s)
  | Ret s => Ret (extend y s)
  | Fault => Fault
  end.

Definition lift_outcome (y : list byte) (r : outcome) : outcome :=
  match r with
  | Finished e s => Finished e (extend y s)
  | MemFault => MemFault
  | OutOfFuel => OutOfFuel
  end.

(** The bytes the reassembly takes from a sequence of packets when
    [remaining] bytes are still to come: from every packet the
    [min remaining (max_payload - 1)] bytes from offset 1 on. *)
Fixpoint packet_slices (pkts : list (list byte)) (remaining max_payload : Z)
  : list byte :=
  match pkts with
  | [] => []
  | p :: pkts' =>
    let n := Z.min remaining (max_payload - 1) in
    bytes_at p 1 n ++ packet_slices pkts' (remaining - n) max_payload
  end.

(** The number of packets that carry [size] bytes. *)
Definition packets_needed (size max_payload : Z) : nat :=
  Z.to_nat ((size + max_payload - 2) / (max_payload - 1)).

(** A record of a compressed stream, as [rle_decode] reads it: a literal
    run of [units] units followed by its bytes, or a repeat run whose
    control byte [count] asks for [count + 1] copies of its pattern. *)
Inductive rle_record : Type :=
| LiteralRun (units : Z) (bytes : list byte)
| RepeatRun (count : Z) (pattern : list byte).

(** A record is complete for a unit of [unit] bytes. *)
Definition record_ok (unit : Z) (r : rle_record) : Prop :=
  match r with
  | LiteralRun c bs => 2 <= c <= 129 /\ Z.of_nat (length bs) = c * unit
  | RepeatRun k pat => 0 <= k <= 127 /\ Z.of_nat (length pat) = unit
  end.

(** The bytes of a record in the stream: the control byte, then the
    payload. *)
Definition record_bytes (r : rle_record) : list byte :=
  match r with
  | LiteralRun c bs => to_uint8 (1 - c) :: bs
  | RepeatRun k pat => to_uint8 k :: pat
  end.

(** The raw bytes a record stands for. *)
Definition record_pixels (r : rle_record) : list byte :=
  match r with
  | LiteralRun _ bs => bs
  | RepeatRun k pat => concat (repeat pat (Z.to_nat (k + 1)))
  end.

Definition stream_of (rs : list rle_record) : list byte :=
  concat (map record_bytes rs).

Definition pixels_of (rs : list rle_record) : list byte :=
  concat (map record_pixels rs).

(** Counting the events of a trace. *)
Definition count_events (p : event -> bool) (tr : list event) : nat :=
  length (filter p tr).

Definition is_disconnect (e : event) : bool :=
  match e with Ev_service_disconnect => true | _ => false end.

Definition is_malloc (e : event) : bool :=
  match e with Ev_malloc _ => true | _ => false end.

Definition is_free_tmp (e : event) : bool :=
  match e with Ev_free_tmp => true | _ => false end.

Definition is_free_i (e : event) : bool :=
  match e with Ev_free_i => true | _ => false end.

Definition is_data_read (e : event) : bool :=
  match e with Ev_data_read => true | _ => false end.

(** [out_len = (width * height * bpp) / 8] of [nspire_screenshot]. *)
Definition out_len_of (h : header) : Z :=
  to_size_t
    (Z.quot (to_int (to_int (h_width h * h_height h) * u8 (h_bpp h))) 8).

(** What an iteration keeps: the sums of cursor and remaining length, the
    direction of the output cursor, and the output behind the new cursor. *)
Definition conserved (s s' : state) : Prop :=
  inp s' + in_size s' = inp s + in_size s
  /\ out s' + out_size s' = out s + out_size s
  /\ out s <= out s'
  /\ skipn (Z.to_nat (out s')) (out_buf s')
     = skipn (Z.to_nat (out s')) (out_buf s).

End Props.
Import Props.

(** ** Integer conversions *)

Lemma to_size_t_id z : size_t_range z -> to_size_t z = z.
Proof. unfold size_t_range, to_size_t. intros H. apply Z.mod_small. lia. Qed.

Lemma to_int_id z : - 2 ^ 31 <= z < 2 ^ 31 -> to_int z = z.
Proof. unfold to_int. intros H. rewrite Z.mod_small; lia. Qed.

Lemma u8_range b : 0 <= u8 b < 256.
Proof.
  unfold u8. pose proof (Byte.to_N_bounded b). lia.
Qed.

Lemma to_int8_range z : - 128 <= to_int8 z < 128.
Proof.
  unfold to_int8. pose proof (Z.mod_pos_bound (z + 2 ^ 7) (2 ^ 8)). lia.
Qed.

Lemma to_int8_u8 b :
  to_int8 (u8 b) = if u8 b <? 128 then u8 b else u8 b - 256.
Proof.
  pose proof (u8_range b) as Hb. unfold to_int8.
  destruct (Z.ltb_spec (u8 b) 128).
  - rewrite Z.mod_small; lia.
  - replace (u8 b + 2 ^ 7) with (u8 b - 128 + 1 * 2 ^ 8) by lia.
    rewrite Z.mod_add by lia. rewrite Z.mod_small; lia.
Qed.

Lemma rle_size_range bpp : 0 <= rle_size bpp <= 63.
Proof.
  unfold rle_size. pose proof (u8_range bpp) as Hb.
  rewrite Z.quot_div_nonneg by lia.
  assert (0 <= u8 bpp * 2 / 8 <= 63).
  { split; [apply Z.div_pos; lia|].
    apply Z.lt_succ_r. apply Z.div_lt_upper_bound; lia. }
  rewrite to_size_t_id; [lia | unfold size_t_range; lia].
Qed.

Lemma rle_size_value bpp : rle_size bpp = u8 bpp * 2 / 8.
Proof.
  pose proof (rle_size_range bpp) as H. unfold rle_size in *.
  pose proof (u8_range bpp) as Hb.
  rewrite Z.quot_div_nonneg in * by lia.
  unfold to_size_t in *. rewrite Z.mod_small; [reflexivity|].
  split; [apply Z.div_pos; lia|].
  apply Z.div_lt_upper_bound; lia.
Qed.

(** ** Buffers *)

Lemma bytes_at_length m p n :
  0 <= p -> 0 <= n -> p + n <= Z.of_nat (length m) ->
  Z.of_nat (length (bytes_at m p n)) = n.
Proof.
  intros Hp Hn Hle. unfold bytes_at.
  rewrite length_firstn, length_skipn. lia.
Qed.

Lemma write_at_length dst p bs :
  0 <= p -> p + Z.of_nat (length bs) <= Z.of_nat (length dst) ->
  length (write_at dst p bs) = length dst.
Proof.
  intros Hp Hle. unfold write_at.
  rewrite !length_app, length_firstn, length_skipn. lia.
Qed.

Lemma write_at_nil dst p : write_at dst p [] = dst.
Proof.
  unfold write_at. simpl. rewrite Nat.add_0_r. apply firstn_skipn.
Qed.

Lemma write_at_app dst p a b :
  0 <= p ->
  p + Z.of_nat (length a) + Z.of_nat (length b) <= Z.of_nat (length dst) ->
  write_at (write_at dst p a) (p + Z.of_nat (length a)) b
  = write_at dst p (a ++ b).
Proof.
  intros Hp Hle. unfold write_at.
  assert (HA : length (firstn (Z.to_nat p) dst) = Z.to_nat p)
    by (rewrite length_firstn; lia).
  set (A := firstn (Z.to_nat p) dst) in *.
  replace (Z.to_nat (p + Z.of_nat (length a))) with (length (A ++ a))
    by (rewrite length_app; lia).
  rewrite (app_assoc A a).
  rewrite firstn_app, firstn_all, Nat.sub_diag, firstn_O, app_nil_r.
  rewrite skipn_app.
  rewrite skipn_all2 by lia.
  replace (length (A ++ a) + length b - length (A ++ a))%nat
    with (length b) by lia.
  rewrite skipn_skipn. simpl.
  rewrite <- !app_assoc. do 3 f_equal.
  rewrite !length_app. f_equal. lia.
Qed.

Lemma load_some m p :
  0 <= p < Z.of_nat (length m) -> exists b, load m p = Some b.
Proof.
  intros H. unfold load.
  destruct (Z.ltb_spec p 0); [lia|].
  destruct (nth_error m (Z.to_nat p)) eqn:E; [eauto|].
  apply nth_error_None in E. lia.
Qed.

Lemma memcpy_some dst dp src sp n :
  0 <= n -> 0 <= dp -> dp + n <= Z.of_nat (length dst) ->
  0 <= sp -> sp + n <= Z.of_nat (length src) ->
  memcpy dst dp src sp n = Some (write_at dst dp (bytes_at src sp n)).
Proof.
  intros Hn Hdp Hd Hsp Hs. unfold memcpy.
  replace (0 <=? n) with true by (symmetry; apply Z.leb_le; lia).
  replace (0 <=? dp) with true by (symmetry; apply Z.leb_le; lia).
  replace (dp + n <=? Z.of_nat (length dst)) with true
    by (symmetry; apply Z.leb_le; lia).
  replace (0 <=? sp) with true by (symmetry; apply Z.leb_le; lia).
  replace (sp + n <=? Z.of_nat (length src)) with true
    by (symmetry; apply Z.leb_le; lia).
  simpl. unfold write_at. do 4 f_equal.
  pose proof (bytes_at_length src sp n Hsp Hn Hs). lia.
Qed.

(** ** One iteration of the decoder *)

(** [len = len < bound ? len : bound] on an [int] and a [size_t]. *)
Lemma clamp_min len bound :
  0 <= len < 2 ^ 31 -> size_t_range bound ->
  to_int (if to_size_t len <? bound then to_size_t len else bound)
  = Z.min len bound.
Proof.
  intros Hl Hb. unfold size_t_range in Hb.
  rewrite (to_size_t_id len) by (unfold size_t_range; lia).
  destruct (Z.ltb_spec len bound); rewrite to_int_id; lia.
Qed.

Lemma rle_body_literal bpp in_buf s b :
  wf in_buf s -> 1 <= in_size s ->
  load in_buf (inp s) = Some b -> to_int8 (u8 b) < 0 ->
  let n := Z.min ((- to_int8 (u8 b) + 1) * rle_size bpp)
                 (Z.min (out_size s) (in_size s - 1)) in
  rle_body (rle_size bpp) in_buf s
  = Next (mkState (inp s + 1 + n) (in_size s - 1 - n)
            (write_at (out_buf s) (out s) (bytes_at in_buf (inp s + 1) n))
            (out s + n) (out_size s - n)).
Proof.
  intros (Hi & Hil & His & Ho & Hol & Hos) Hin Hload Hneg n.
  unfold size_t_range in *.
  pose proof (to_int8_range (u8 b)) as Hc.
  pose proof (rle_size_range bpp) as Hu.
  unfold rle_body. rewrite Hload.
  set (code := to_int8 (u8 b)) in *.
  replace (code <? 0) with true by (symmetry; apply Z.ltb_lt; lia).
  assert (Hprod : 0 <= (- code + 1) * rle_size bpp <= 129 * 63) by nia.
  rewrite (to_int_id (- code + 1)) by lia.
  rewrite (to_size_t_id (- code + 1)) by (unfold size_t_range; lia).
  rewrite (to_size_t_id ((- code + 1) * rle_size bpp))
    by (unfold size_t_range; lia).
  rewrite (to_int_id ((- code + 1) * rle_size bpp)) by lia.
  rewrite (to_size_t_id (in_size s - 1)) by (unfold size_t_range; lia).
  rewrite (clamp_min ((- code + 1) * rle_size bpp) (out_size s))
    by (unfold size_t_range; lia).
  rewrite clamp_min by (unfold size_t_range; lia).
  rewrite <- Z.min_assoc. fold n.
  assert (Hn : 0 <= n <= 129 * 63) by lia.
  rewrite (to_size_t_id n) by (unfold size_t_range; lia).
  rewrite memcpy_some by lia.
  rewrite !to_size_t_id by (unfold size_t_range; lia).
  reflexivity.
Qed.

Lemma bytes_at_zero m p : bytes_at m p 0 = [].
Proof. reflexivity. Qed.

Lemma repeat_run_spec n unit in_buf :
  forall i isz ob o osz,
  0 <= unit < 2 ^ 64 ->
  0 <= i -> i + unit <= Z.of_nat (length in_buf) ->
  0 <= o -> o + osz <= Z.of_nat (length ob) -> size_t_range osz ->
  let k := Z.min (Z.of_nat n) (osz / unit) in
  repeat_run n unit in_buf (mkState i isz ob o osz)
  = Some (mkState i isz
            (write_at ob o (concat (repeat (bytes_at in_buf i unit) (Z.to_nat k))))
            (o + k * unit) (osz - k * unit)).
Proof.
  induction n as [|n IH]; intros i isz ob o osz Hu Hi Hil Ho Hol Hos k;
    unfold size_t_range in *.
  - assert (0 <= osz / unit).
    { destruct (Z.eq_dec unit 0) as [->|]; [rewrite Z.div_0_r; lia|].
      apply Z.div_pos; lia. }
    assert (k = 0) as -> by lia.
    simpl. rewrite write_at_nil. do 2 f_equal; lia.
  - simpl repeat_run. simpl out_size. simpl out_buf. simpl out. simpl inp.
    simpl in_size.
    destruct (Z.ltb_spec osz unit) as [Hlt|Hge].
    + assert (Hk : k = 0).
      { unfold k. rewrite Z.div_small by lia. lia. }
      rewrite Hk. simpl. rewrite write_at_nil. do 2 f_equal; lia.
    + rewrite memcpy_some by lia.
      rewrite (to_size_t_id (osz - unit)) by (unfold size_t_range; lia).
      pose proof (bytes_at_length in_buf i unit Hi (proj1 Hu) Hil) as Hg.
      rewrite IH; try (unfold size_t_range; lia).
      2:{ rewrite write_at_length; lia. }
      destruct (Z.eq_dec unit 0) as [->|Hnz].
      * rewrite !Z.div_0_r in *. subst k. rewrite !Z.div_0_r.
        rewrite !Z.min_r by lia.
        rewrite bytes_at_zero. change (Z.to_nat 0) with 0%nat. simpl repeat.
        simpl concat. rewrite !write_at_nil. do 2 f_equal; lia.
      * assert (Hdiv : osz / unit = (osz - unit) / unit + 1).
        { replace osz with ((osz - unit) + 1 * unit) at 1 by lia.
          rewrite Z.div_add by lia. reflexivity. }
        assert (0 <= (osz - unit) / unit) by (apply Z.div_pos; lia).
        set (k' := Z.min (Z.of_nat n) ((osz - unit) / unit)).
        assert (Hk : k = k' + 1) by (unfold k, k'; lia).
        rewrite Hk.
        replace (Z.to_nat (k' + 1)) with (S (Z.to_nat k')) by lia.
        simpl repeat. simpl concat.
        replace (o + unit) with (o + Z.of_nat (length (bytes_at in_buf i unit)))
          at 1 by lia.
        assert (Hrep : Z.of_nat (length (concat (repeat (bytes_at in_buf i unit)
                                                   (Z.to_nat k')))) = k' * unit).
        { assert (Hk' : 0 <= k') by (unfold k'; lia).
          clear - Hg Hk'. rewrite <- (Z2Nat.id k') at 2 by lia.
          induction (Z.to_nat k') as [|j IHj]; [reflexivity|].
          simpl repeat. simpl concat. rewrite length_app. lia. }
        rewrite write_at_app.
        2: lia.
        2:{ rewrite Hrep, Hg.
            assert (k' * unit <= (osz - unit) / unit * unit) by (unfold k'; nia).
            pose proof (Z.mul_div_le (osz - unit) unit). nia. }
        do 2 f_equal; lia.
Qed.

Lemma rle_body_repeat bpp in_buf s b :
  wf in_buf s -> 1 <= in_size s ->
  load in_buf (inp s) = Some b -> 0 <= to_int8 (u8 b) ->
  rle_size bpp <= in_size s - 1 ->
  let unit := rle_size bpp in
  let k := Z.min (to_int8 (u8 b) + 1) (out_size s / unit) in
  rle_body unit in_buf s
  = Next (mkState (inp s + 1 + unit) (in_size s - 1 - unit)
            (write_at (out_buf s) (out s)
               (concat (repeat (bytes_at in_buf (inp s + 1) unit) (Z.to_nat k))))
            (out s + k * unit) (out_size s - k * unit)).
Proof.
  intros (Hi & Hil & His & Ho & Hol & Hos) Hin Hload Hpos Hroom unit k.
  unfold size_t_range in *.
  pose proof (to_int8_range (u8 b)) as Hc.
  pose proof (rle_size_range bpp) as Hu. fold unit in Hu, Hroom.
  unfold rle_body. rewrite Hload.
  set (code := to_int8 (u8 b)) in *.
  replace (code <? 0) with false by (symmetry; apply Z.ltb_ge; lia).
  rewrite (to_size_t_id (in_size s - 1)) by (unfold size_t_range; lia).
  replace (in_size s - 1 <? unit) with false
    by (symmetry; apply Z.ltb_ge; lia).
  rewrite (to_int_id (code + 1)) by lia.
  rewrite repeat_run_spec; try (unfold size_t_range; lia).
  cbn [inp in_size out_buf out out_size].
  rewrite Z2Nat.id by lia. fold k.
  rewrite to_size_t_id by (unfold size_t_range; lia).
  reflexivity.
Qed.

Lemma rle_body_truncated bpp in_buf s b :
  wf in_buf s -> 1 <= in_size s ->
  load in_buf (inp s) = Some b -> 0 <= to_int8 (u8 b) ->
  in_size s - 1 < rle_size bpp ->
  rle_body (rle_size bpp) in_buf s
  = Ret (mkState (inp s + 1) (in_size s - 1) (out_buf s) (out s) (out_size s)).
Proof.
  intros (Hi & Hil & His & Ho & Hol & Hos) Hin Hload Hpos Hshort.
  unfold size_t_range in *.
  unfold rle_body. rewrite Hload.
  replace (to_int8 (u8 b) <? 0) with false by (symmetry; apply Z.ltb_ge; lia).
  rewrite (to_size_t_id (in_size s - 1)) by (unfold size_t_range; lia).
  replace (in_size s - 1 <? rle_size bpp) with true
    by (symmetry; apply Z.ltb_lt; lia).
  reflexivity.
Qed.

Lemma concat_repeat_length (g : list byte) (k : nat) :
  length (concat (repeat g k)) = (k * length g)%nat.
Proof.
  induction k as [|k IH]; [reflexivity|].
  simpl. rewrite length_app, IH. reflexivity.
Qed.

Lemma repeat_count_fits k unit osz n :
  0 <= unit -> 0 <= osz -> 0 <= n ->
  k = Z.min n (osz / unit) -> 0 <= k /\ k * unit <= osz.
Proof.
  intros Hu Ho Hn ->.
  destruct (Z.eq_dec unit 0) as [->|Hnz].
  - rewrite Z.div_0_r. lia.
  - assert (0 <= osz / unit) by (apply Z.div_pos; lia).
    pose proof (Z.mul_div_le osz unit). nia.
Qed.

(** ** The loop of the decoder *)

Lemma loop_cond_true s :
  loop_cond s = true <-> 1 < in_size s /\ out_size s <> 0.
Proof.
  unfold loop_cond. rewrite andb_true_iff, negb_true_iff, Z.ltb_lt, Z.eqb_neq.
  tauto.
Qed.

Lemma loop_cond_false s :
  loop_cond s = false <-> in_size s <= 1 \/ out_size s = 0.
Proof.
  unfold loop_cond. rewrite andb_false_iff, negb_false_iff, Z.ltb_ge, Z.eqb_eq.
  tauto.
Qed.

(** The body keeps the cursors in the buffers and consumes input. *)
Lemma rle_body_progress bpp in_buf s :
  wf in_buf s -> loop_cond s = true ->
  (exists s', rle_body (rle_size bpp) in_buf s = Next s'
              /\ wf in_buf s' /\ in_size s' < in_size s
              /\ length (out_buf s') = length (out_buf s))
  \/ (exists s', rle_body (rle_size bpp) in_buf s = Ret s'
                 /\ wf in_buf s' /\ exit_ok bpp in_buf EarlyReturn s'
                 /\ out_buf s' = out_buf s).
Proof.
  intros Hwf Hc. apply loop_cond_true in Hc. destruct Hc as [Hin Hout].
  pose proof Hwf as (Hi & Hil & His & Ho & Hol & Hos).
  unfold size_t_range in *.
  pose proof (rle_size_range bpp) as Hu.
  destruct (load_some in_buf (inp s)) as [b Hb]; [lia|].
  pose proof (to_int8_range (u8 b)) as Hcode.
  destruct (Z.lt_ge_cases (to_int8 (u8 b)) 0) as [Hneg|Hpos].
  - left. eexists. split; [apply rle_body_literal; eauto; lia|].
    set (n := Z.min _ _).
    assert (Hn : 0 <= n) by (unfold n; nia).
    assert (Hlen : Z.of_nat (length (bytes_at in_buf (inp s + 1) n)) = n)
      by (apply bytes_at_length; lia).
    cbn [inp in_size out_buf out out_size].
    assert (Hw : length (write_at (out_buf s) (out s)
                           (bytes_at in_buf (inp s + 1) n))
                 = length (out_buf s))
      by (apply write_at_length; lia).
    repeat split; cbn [inp in_size out_buf out out_size]; try lia.
  - destruct (Z.lt_ge_cases (in_size s - 1) (rle_size bpp)) as [Hshort|Hroom].
    + right. eexists. split; [eapply rle_body_truncated; eauto; lia|].
      repeat split; cbn [inp in_size out_buf out out_size]; try lia.
      exists b. cbn [inp in_size].
      replace (inp s + 1 - 1) with (inp s) by lia. auto.
    + left. eexists. split; [apply rle_body_repeat; eauto; lia|].
      set (unit := rle_size bpp) in *.
      set (k := Z.min _ _).
      destruct (repeat_count_fits k unit (out_size s) (to_int8 (u8 b) + 1))
        as [Hk0 Hk]; try lia; try reflexivity.
      set (g := bytes_at in_buf (inp s + 1) unit).
      assert (Hg : Z.of_nat (length g) = unit)
        by (apply bytes_at_length; lia).
      assert (Hlen : Z.of_nat (length (concat (repeat g (Z.to_nat k))))
                     = k * unit)
        by (rewrite concat_repeat_length; nia).
      assert (Hw : length (write_at (out_buf s) (out s)
                             (concat (repeat g (Z.to_nat k))))
                   = length (out_buf s))
        by (apply write_at_length; lia).
      repeat split; cbn [inp in_size out_buf out out_size]; try lia.
Qed.

Lemma rle_loop_finishes bpp in_buf :
  forall fuel s,
  wf in_buf s -> in_size s <= Z.of_nat fuel ->
  exists e s', rle_loop fuel (rle_size bpp) in_buf s = Finished e s'
               /\ wf in_buf s' /\ exit_ok bpp in_buf e s'
               /\ length (out_buf s') = length (out_buf s).
Proof.
  induction fuel as [|fuel IH]; intros s Hwf Hfuel.
  - exists LoopExit, s. simpl.
    destruct (loop_cond s) eqn:Hc.
    + apply loop_cond_true in Hc. lia.
    + apply loop_cond_false in Hc. auto.
  - simpl. destruct (loop_cond s) eqn:Hc.
    + destruct (rle_body_progress bpp in_buf s Hwf Hc)
        as [(s' & -> & Hwf' & Hlt & Hlen) | (s' & -> & Hwf' & Hex & Hob)].
      * destruct (IH s' Hwf') as (e & s'' & Hrun & Hwf'' & Hex & Hlen'');
          [lia|].
        exists e, s''. rewrite Hrun.
        split; [reflexivity|]. split; [exact Hwf''|].
        split; [exact Hex|congruence].
      * exists EarlyReturn, s'.
        split; [reflexivity|]. split; [exact Hwf'|].
        split; [exact Hex|congruence].
    + exists LoopExit, s. apply loop_cond_false in Hc. auto.
Qed.

(** ** Properties of [rle_decode] *)

(** C2. In a state of the loop with at least 2 input bytes left and output
    space left, a negative control byte [code] makes the body copy exactly
    [n = min ((-code + 1) * unit) (min out_size (in_size - 1))] bytes from
    the input position after the control byte to the output position; both
    cursors then stand [n] further and both remaining lengths are [n]
    smaller (the input ones counted after the control byte). *)
Theorem literal_run_copies_clamped bpp in_buf s b :
  wf in_buf s -> 2 <= in_size s -> 0 < out_size s ->
  load in_buf (inp s) = Some b -> to_int8 (u8 b) < 0 ->
  let code := to_int8 (u8 b) in
  let unit := rle_size bpp in
  let n := Z.min ((- code + 1) * unit) (Z.min (out_size s) (in_size s - 1)) in
  Z.of_nat (length (bytes_at in_buf (inp s + 1) n)) = n
  /\ rle_body unit in_buf s
     = Next (mkState (inp s + 1 + n) (in_size s - 1 - n)
               (write_at (out_buf s) (out s) (bytes_at in_buf (inp s + 1) n))
               (out s + n) (out_size s - n)).
Proof.
  intros Hwf Hin Hout Hload Hneg code unit n. split.
  - destruct Hwf as (Hi & Hil & His & Ho & Hol & Hos).
    unfold size_t_range in *.
    pose proof (to_int8_range (u8 b)). pose proof (rle_size_range bpp).
    apply bytes_at_length; unfold n, unit, code; nia.
  - apply rle_body_literal; auto. lia.
Qed.

Lemma literal_run_copies_clamped_witness :
  (wf [x00; xaa; xbb; xfe; x11; x22]
      (mkState 3 3 [xaa; xbb; x00; x00; x00; x00; x00; x00] 2 6)
   /\ 2 <= 3 /\ 0 < 6
   /\ load [x00; xaa; xbb; xfe; x11; x22] 3 = Some xfe
   /\ to_int8 (u8 xfe) < 0)
  /\ rle_body (rle_size x08) [x00; xaa; xbb; xfe; x11; x22]
              (mkState 3 3 [xaa; xbb; x00; x00; x00; x00; x00; x00] 2 6)
     = Next (mkState 6 0 [xaa; xbb; x11; x22; x00; x00; x00; x00] 4 4).
Proof.
  set (in_buf := [x00; xaa; xbb; xfe; x11; x22]).
  set (s := mkState 3 3 [xaa; xbb; x00; x00; x00; x00; x00; x00] 2 6).
  assert (Hwf : wf in_buf s) by (cbv [wf size_t_range]; cbn; lia).
  assert (Hin : 2 <= in_size s) by (cbn; lia).
  assert (Hout : 0 < out_size s) by (cbn; lia).
  assert (Hload : load in_buf (inp s) = Some xfe) by reflexivity.
  assert (Hneg : to_int8 (u8 xfe) < 0) by (vm_compute; reflexivity).
  split; [exact (conj Hwf (conj Hin (conj Hout (conj Hload Hneg))))|].
  exact (proj2 (literal_run_copies_clamped x08 in_buf s xfe
                  Hwf Hin Hout Hload Hneg)).
Defined.

(** C3. In a state of the loop with at least 2 input bytes left and output
    space left, a control byte [code >= 0] with at least [unit] input bytes
    after it makes the body write [min (code + 1) (out_size / unit)] copies
    of the [unit] bytes at the input position; the input cursor then stands
    [unit] further and the remaining input is [unit] smaller, once, whatever
    the number of copies.  (For [unit = 0] the quotient is taken as 0; the
    copies are empty.) *)
Theorem repeat_run_copies_bounded bpp in_buf s b :
  wf in_buf s -> 2 <= in_size s -> 0 < out_size s ->
  load in_buf (inp s) = Some b -> 0 <= to_int8 (u8 b) ->
  rle_size bpp <= in_size s - 1 ->
  let code := to_int8 (u8 b) in
  let unit := rle_size bpp in
  let k := Z.min (code + 1) (out_size s / unit) in
  let group := bytes_at in_buf (inp s + 1) unit in
  Z.of_nat (length group) = unit
  /\ rle_body unit in_buf s
     = Next (mkState (inp s + 1 + unit) (in_size s - 1 - unit)
               (write_at (out_buf s) (out s) (concat (repeat group (Z.to_nat k))))
               (out s + k * unit) (out_size s - k * unit)).
Proof.
  intros Hwf Hin Hout Hload Hpos Hroom code unit k group. split.
  - destruct Hwf as (Hi & Hil & His & Ho & Hol & Hos).
    unfold size_t_range in *. pose proof (rle_size_range bpp).
    apply bytes_at_length; unfold unit in *; lia.
  - apply rle_body_repeat; auto. lia.
Qed.

Lemma repeat_run_copies_bounded_witness :
  (wf [x04; xaa; xbb; x7f] (mkState 0 4 [x00; x00; x00; x00; x00] 0 5)
   /\ 2 <= 4 /\ 0 < 5
   /\ load [x04; xaa; xbb; x7f] 0 = Some x04
   /\ 0 <= to_int8 (u8 x04)
   /\ rle_size x08 <= 4 - 1)
  /\ rle_body (rle_size x08) [x04; xaa; xbb; x7f]
              (mkState 0 4 [x00; x00; x00; x00; x00] 0 5)
     = Next (mkState 3 1 [xaa; xbb; xaa; xbb; x00] 4 1).
Proof.
  set (in_buf := [x04; xaa; xbb; x7f]).
  set (s := mkState 0 4 [x00; x00; x00; x00; x00] 0 5).
  assert (Hwf : wf in_buf s) by (cbv [wf size_t_range]; cbn; lia).
  assert (Hin : 2 <= in_size s) by (cbn; lia).
  assert (Hout : 0 < out_size s) by (cbn; lia).
  assert (Hload : load in_buf (inp s) = Some x04) by reflexivity.
  assert (Hpos : 0 <= to_int8 (u8 x04)) by (vm_compute; discriminate).
  assert (Hroom : rle_size x08 <= in_size s - 1) by (vm_compute; discriminate).
  split;
    [exact (conj Hwf (conj Hin (conj Hout (conj Hload (conj Hpos Hroom)))))|].
  exact (proj2 (repeat_run_copies_bounded x08 in_buf s x04
                  Hwf Hin Hout Hload Hpos Hroom)).
Defined.

(** C7. When the control byte is [code >= 0] and fewer than [unit] bytes
    of input are left after it, the decoder returns at once: the run ends
    by the [return], not by a fault, and the output buffer, the output
    cursor and the remaining output space are what they were. *)
Theorem truncated_repeat_stops bpp in_buf s b fuel :
  wf in_buf s -> 2 <= in_size s -> 0 < out_size s ->
  load in_buf (inp s) = Some b -> 0 <= to_int8 (u8 b) ->
  in_size s - 1 < rle_size bpp ->
  rle_loop (S fuel) (rle_size bpp) in_buf s
  = Finished EarlyReturn
      (mkState (inp s + 1) (in_size s - 1) (out_buf s) (out s) (out_size s)).
Proof.
  intros Hwf Hin Hout Hload Hpos Hshort. simpl.
  replace (loop_cond s) with true
    by (symmetry; apply loop_cond_true; lia).
  rewrite (rle_body_truncated bpp in_buf s b); auto. lia.
Qed.

Lemma truncated_repeat_stops_witness :
  (wf [x00; xaa] (mkState 0 2 [x01; x02; x03; x04] 0 4)
   /\ 2 <= 2 /\ 0 < 4
   /\ load [x00; xaa] 0 = Some x00
   /\ 0 <= to_int8 (u8 x00)
   /\ 2 - 1 < rle_size x08)
  /\ rle_decode x08 [x00; xaa] [x01; x02; x03; x04] 2 4
     = Finished EarlyReturn (mkState 1 1 [x01; x02; x03; x04] 0 4).
Proof.
  set (in_buf := [x00; xaa]).
  set (s := mkState 0 2 [x01; x02; x03; x04] 0 4).
  assert (Hwf : wf in_buf s) by (cbv [wf size_t_range]; cbn; lia).
  assert (Hin : 2 <= in_size s) by (cbn; lia).
  assert (Hout : 0 < out_size s) by (cbn; lia).
  assert (Hload : load in_buf (inp s) = Some x00) by reflexivity.
  assert (Hpos : 0 <= to_int8 (u8 x00)) by (vm_compute; discriminate).
  assert (Hshort : in_size s - 1 < rle_size x08) by (vm_compute; reflexivity).
  split;
    [exact (conj Hwf (conj Hin (conj Hout (conj Hload (conj Hpos Hshort)))))|].
  exact (truncated_repeat_stops x08 in_buf s x00 1
           Hwf Hin Hout Hload Hpos Hshort).
Defined.

(** C8. With 8 bits per pixel (unit 2) the stream 00 AA BB FE 11 22 decoded
    into 8 bytes writes AA BB 11 22 to the first four bytes and leaves the
    last four as they were: the control byte 0 emits AA BB once, the control
    byte -2 asks for 6 literal bytes and gets the 2 that are left. *)
Theorem scenario_bpp8 (o0 o1 o2 o3 o4 o5 o6 o7 : byte) :
  rle_size x08 = 2
  /\ rle_decode x08 [x00; xaa; xbb; xfe; x11; x22]
                [o0; o1; o2; o3; o4; o5; o6; o7] 6 8
     = Finished LoopExit
         (mkState 6 0 [xaa; xbb; x11; x22; o4; o5; o6; o7] 4 4).
Proof. split; vm_compute; reflexivity. Qed.

(** C9. [rle_decode] terminates for every bits-per-pixel value and all
    buffers: within the [in_size] iterations the model allows, the loop is
    left, and it is left only with fewer than 2 input bytes, with no output
    space, or by the [return] of a repeat run that finds fewer than [unit]
    input bytes. *)
Theorem rle_decode_terminates bpp in_buf out_buf in_size out_size :
  0 <= in_size <= Z.of_nat (length in_buf) -> in_size < 2 ^ 64 ->
  0 <= out_size <= Z.of_nat (length out_buf) -> out_size < 2 ^ 64 ->
  exists e s',
    rle_decode bpp in_buf out_buf in_size out_size = Finished e s'
    /\ exit_ok bpp in_buf e s'.
Proof.
  intros Hin Hin64 Hout Hout64. unfold rle_decode.
  destruct (rle_loop_finishes bpp in_buf (Z.to_nat in_size)
              (mkState 0 in_size out_buf 0 out_size))
    as (e & s' & Hrun & _ & Hex & _).
  - unfold wf, size_t_range. cbn. lia.
  - cbn. lia.
  - exists e, s'. auto.
Qed.

Lemma rle_decode_terminates_witness :
  (0 <= 6 <= Z.of_nat (length [x00; xaa; xbb; xfe; x11; x22]) /\ 6 < 2 ^ 64
   /\ 0 <= 8 <= Z.of_nat (length (repeat x00 8)) /\ 8 < 2 ^ 64)
  /\ exists e s',
       rle_decode x08 [x00; xaa; xbb; xfe; x11; x22] (repeat x00 8) 6 8
       = Finished e s'
       /\ exit_ok x08 [x00; xaa; xbb; xfe; x11; x22] e s'.
Proof.
  assert (H1 : 0 <= 6 <= Z.of_nat (length [x00; xaa; xbb; xfe; x11; x22]))
    by (cbn; lia).
  assert (H2 : 6 < 2 ^ 64) by lia.
  assert (H3 : 0 <= 8 <= Z.of_nat (length (repeat x00 8))) by (cbn; lia).
  assert (H4 : 8 < 2 ^ 64) by lia.
  split; [tauto|].
  exact (rle_decode_terminates x08 [x00; xaa; xbb; xfe; x11; x22]
           (repeat x00 8) 6 8 H1 H2 H3 H4).
Defined.

(** ** Bytes outside the two lengths *)

Lemma load_app m x p :
  0 <= p < Z.of_nat (length m) -> load (m ++ x) p = load m p.
Proof.
  intros H. unfold load. destruct (p <? 0); [reflexivity|].
  apply nth_error_app1. lia.
Qed.

Lemma bytes_at_app m x p n :
  0 <= p -> 0 <= n -> p + n <= Z.of_nat (length m) ->
  bytes_at (m ++ x) p n = bytes_at m p n.
Proof.
  intros Hp Hn Hle. unfold bytes_at.
  rewrite skipn_app, firstn_app, length_skipn.
  replace (Z.to_nat n - (length m - Z.to_nat p))%nat with 0%nat by lia.
  rewrite firstn_O, app_nil_r. reflexivity.
Qed.

Lemma write_at_app_r dst y p bs :
  0 <= p -> p + Z.of_nat (length bs) <= Z.of_nat (length dst) ->
  write_at (dst ++ y) p bs = write_at dst p bs ++ y.
Proof.
  intros Hp Hle. unfold write_at.
  rewrite firstn_app, skipn_app.
  replace (Z.to_nat p - length dst)%nat with 0%nat by lia.
  replace (Z.to_nat p + length bs - length dst)%nat with 0%nat by lia.
  rewrite firstn_O, app_nil_r, skipn_O. rewrite <- !app_assoc. reflexivity.
Qed.

Lemma wf_extend in_buf x y s : wf in_buf s -> wf (in_buf ++ x) (extend y s).
Proof.
  unfold wf, extend. cbn [inp in_size out_buf out out_size].
  rewrite !length_app. intros (? & ? & ? & ? & ? & ?). repeat split; try lia.
  all: try (unfold size_t_range in *; lia).
Qed.

Lemma rle_body_frame bpp in_buf x y s :
  wf in_buf s -> loop_cond s = true ->
  rle_body (rle_size bpp) (in_buf ++ x) (extend y s)
  = lift_step y (rle_body (rle_size bpp) in_buf s).
Proof.
  intros Hwf Hc. apply loop_cond_true in Hc. destruct Hc as [Hin Hout].
  pose proof (wf_extend in_buf x y s Hwf) as Hwf'.
  pose proof Hwf as (Hi & Hil & His & Ho & Hol & Hos).
  unfold size_t_range in *.
  pose proof (rle_size_range bpp) as Hu.
  destruct (load_some in_buf (inp s)) as [b Hb]; [lia|].
  assert (Hb' : load (in_buf ++ x) (inp (extend y s)) = Some b)
    by (cbn [extend inp]; rewrite load_app; [exact Hb | lia]).
  pose proof (to_int8_range (u8 b)) as Hcode.
  destruct (Z.lt_ge_cases (to_int8 (u8 b)) 0) as [Hneg|Hpos].
  - rewrite (rle_body_literal bpp in_buf s b); auto; try lia.
    rewrite (rle_body_literal bpp (in_buf ++ x) (extend y s) b); auto;
      try (cbn [extend in_size]; lia).
    unfold lift_step, extend. cbn [inp in_size out_buf out out_size].
    set (n := Z.min _ _).
    assert (Hn : 0 <= n) by (unfold n; nia).
    rewrite bytes_at_app by lia.
    rewrite write_at_app_r; [reflexivity | lia |].
    rewrite bytes_at_length; lia.
  - destruct (Z.lt_ge_cases (in_size s - 1) (rle_size bpp)) as [Hshort|Hroom].
    + rewrite (rle_body_truncated bpp in_buf s b); auto; try lia.
      rewrite (rle_body_truncated bpp (in_buf ++ x) (extend y s) b); auto;
        try (cbn [extend in_size]; lia).
    + rewrite (rle_body_repeat bpp in_buf s b); auto; try lia.
      rewrite (rle_body_repeat bpp (in_buf ++ x) (extend y s) b); auto;
        try (cbn [extend in_size]; lia).
      unfold lift_step, extend. cbn [inp in_size out_buf out out_size].
      set (unit := rle_size bpp) in *.
      set (k := Z.min _ _).
      destruct (repeat_count_fits k unit (out_size s) (to_int8 (u8 b) + 1))
        as [Hk0 Hk]; try lia; try reflexivity.
      rewrite bytes_at_app by lia.
      rewrite write_at_app_r; [reflexivity | lia |].
      rewrite concat_repeat_length.
      pose proof (bytes_at_length in_buf (inp s + 1) unit). nia.
Qed.

Lemma rle_loop_frame bpp in_buf x y :
  forall fuel s,
  wf in_buf s ->
  rle_loop fuel (rle_size bpp) (in_buf ++ x) (extend y s)
  = lift_outcome y (rle_loop fuel (rle_size bpp) in_buf s).
Proof.
  induction fuel as [|fuel IH]; intros s Hwf; simpl;
    change (loop_cond (extend y s)) with (loop_cond s);
    destruct (loop_cond s) eqn:Hc; try reflexivity.
  rewrite rle_body_frame by assumption.
  destruct (rle_body_progress bpp in_buf s Hwf Hc)
    as [(s' & -> & Hwf' & _) | (s' & -> & _)]; simpl.
  - apply IH. exact Hwf'.
  - reflexivity.
Qed.

(** C10. For every bits-per-pixel value and all buffer lengths,
    [rle_decode] reads only the first [in_size] bytes of the input and
    writes only the first [out_size] bytes of the output: on buffers of
    exactly these lengths no load and no copy leaves a buffer, and with more
    bytes behind either buffer the run is the same and leaves the bytes
    behind the output as they were. *)
Theorem rle_decode_in_bounds bpp in_buf out_buf in_more out_more :
  Z.of_nat (length in_buf) < 2 ^ 64 -> Z.of_nat (length out_buf) < 2 ^ 64 ->
  let in_size := Z.of_nat (length in_buf) in
  let out_size := Z.of_nat (length out_buf) in
  exists e s',
    rle_decode bpp in_buf out_buf in_size out_size = Finished e s'
    /\ length (RLE.out_buf s') = length out_buf
    /\ rle_decode bpp (in_buf ++ in_more) (out_buf ++ out_more) in_size out_size
       = Finished e (extend out_more s').
Proof.
  intros Hin Hout in_size out_size. unfold rle_decode.
  set (s0 := mkState 0 in_size out_buf 0 out_size).
  assert (Hwf : wf in_buf s0)
    by (unfold wf, size_t_range, s0, in_size, out_size; cbn; lia).
  destruct (rle_loop_finishes bpp in_buf (Z.to_nat in_size) s0 Hwf)
    as (e & s' & Hrun & _ & _ & Hlen).
  - unfold s0. cbn. lia.
  - exists e, s'. split; [exact Hrun|]. split; [exact Hlen|].
    change (mkState 0 in_size (out_buf ++ out_more) 0 out_size)
      with (extend out_more s0).
    rewrite rle_loop_frame by exact Hwf. rewrite Hrun. reflexivity.
Qed.

Lemma rle_decode_in_bounds_witness :
  (Z.of_nat (length [xfd; x11; x22; x33; x44]) < 2 ^ 64
   /\ Z.of_nat (length [x00; x00; x00]) < 2 ^ 64)
  /\ exists e s',
       rle_decode x08 [xfd; x11; x22; x33; x44] [x00; x00; x00] 5 3
       = Finished e s'
       /\ length (RLE.out_buf s') = 3%nat
       /\ rle_decode x08 ([xfd; x11; x22; x33; x44] ++ [x55; x66])
                     ([x00; x00; x00] ++ [x77; x88]) 5 3
          = Finished e (extend [x77; x88] s').
Proof.
  assert (H1 : Z.of_nat (length [xfd; x11; x22; x33; x44]) < 2 ^ 64)
    by (cbn; lia).
  assert (H2 : Z.of_nat (length [x00; x00; x00]) < 2 ^ 64) by (cbn; lia).
  split; [tauto|].
  exact (rle_decode_in_bounds x08 [xfd; x11; x22; x33; x44] [x00; x00; x00]
           [x55; x66] [x77; x88] H1 H2).
Defined.

(** ** Literal-run encodings *)

Example literal_encode_bpp16 :
  literal_encode x10 2 [x01; x02; x03; x04; x05; x06; x07; x08; x09; x0a]
  = [xff; x01; x02; x03; x04; x05; x06; x07; x08; xff; x09; x0a].
Proof. reflexivity. Qed.

Lemma u8_to_uint8 z : u8 (to_uint8 z) = z mod 2 ^ 8.
Proof.
  unfold u8, to_uint8.
  pose proof (Z.mod_pos_bound z (2 ^ 8)) as Hz.
  destruct (Byte.of_N (Z.to_N (z mod 2 ^ 8))) as [b|] eqn:E.
  - apply Byte.to_of_N in E. rewrite E. lia.
  - apply Byte.of_N_None_iff in E. lia.
Qed.

Lemma literal_code_value m :
  2 <= m <= 129 -> to_int8 (u8 (literal_code m)) = 1 - m.
Proof.
  intros Hm. unfold literal_code. rewrite u8_to_uint8. unfold to_int8.
  replace (1 - m) with (257 - m + (-1) * 2 ^ 8) by lia.
  rewrite Z.mod_add by lia. rewrite (Z.mod_small (257 - m)) by lia.
  replace (257 - m + 2 ^ 7) with (129 - m + 1 * 2 ^ 8) by lia.
  rewrite Z.mod_add by lia. rewrite Z.mod_small; lia.
Qed.

Lemma literal_runs_nil fuel unit m : literal_runs fuel unit m [] = [].
Proof. destruct fuel; reflexivity. Qed.

Lemma bytes_at_middle (a b c : list byte) :
  bytes_at (a ++ b ++ c) (Z.of_nat (length a)) (Z.of_nat (length b)) = b.
Proof.
  unfold bytes_at. rewrite !Nat2Z.id.
  rewrite skipn_app, skipn_all, Nat.sub_diag, skipn_O. simpl.
  rewrite firstn_app, firstn_all, Nat.sub_diag, firstn_O. apply app_nil_r.
Qed.

Lemma write_at_end (a t b : list byte) :
  (length b <= length t)%nat ->
  write_at (a ++ t) (Z.of_nat (length a)) b = (a ++ b) ++ skipn (length b) t.
Proof.
  intros Hle. unfold write_at. rewrite Nat2Z.id.
  rewrite firstn_app, firstn_all, Nat.sub_diag, firstn_O, app_nil_r.
  rewrite skipn_app, skipn_all2 by lia.
  replace (length a + length b - length a)%nat with (length b) by lia.
  simpl. rewrite <- app_assoc. reflexivity.
Qed.

Lemma load_middle (a c : list byte) (b : byte) :
  load (a ++ b :: c) (Z.of_nat (length a)) = Some b.
Proof.
  unfold load. destruct (Z.ltb_spec (Z.of_nat (length a)) 0); [lia|].
  rewrite Nat2Z.id, nth_error_app2, Nat.sub_diag by lia. reflexivity.
Qed.

Lemma rle_loop_exit fuel unit in_buf s :
  loop_cond s = false -> rle_loop fuel unit in_buf s = Finished LoopExit s.
Proof. intros H. destruct fuel; simpl; rewrite H; reflexivity. Qed.

(** Decoding what is left of a literal-run encoding: [pre] is the part of
    the stream already consumed, [done] the part of the output already
    written, [rest] the raw bytes still to come. *)
Lemma decode_literal_runs bpp m :
  1 <= rle_size bpp -> 2 <= m <= 129 ->
  forall f fuel pre rest done tail s,
  (length rest <= f)%nat -> length tail = length rest ->
  let enc := literal_runs f (rle_size bpp) m rest in
  Z.of_nat (length (pre ++ enc)) < 2 ^ 64 ->
  Z.of_nat (length (done ++ rest)) < 2 ^ 64 ->
  (length enc <= fuel)%nat ->
  inp s = Z.of_nat (length pre) -> in_size s = Z.of_nat (length enc) ->
  out_buf s = done ++ tail -> out s = Z.of_nat (length done) ->
  out_size s = Z.of_nat (length rest) ->
  exists s', rle_loop fuel (rle_size bpp) (pre ++ enc) s = Finished LoopExit s'
             /\ out_buf s' = done ++ rest.
Proof.
  intros Hunit Hm.
  assert (Hstop : forall fuel in_buf done tail s,
             length tail = 0%nat -> out_buf s = done ++ tail ->
             out_size s = 0 ->
             exists s', rle_loop fuel (rle_size bpp) in_buf s
                        = Finished LoopExit s'
                        /\ out_buf s' = done ++ []).
  { intros fuel in_buf done tail s Ht Hob Hos. exists s.
    split; [apply rle_loop_exit, loop_cond_false; auto|].
    destruct tail; [exact Hob | discriminate]. }
  induction f as [|f IH];
    intros fuel pre rest done tail s Hf Ht enc He64 Hr64 Hfuel
           Hinp Hisz Hob Hout Hosz.
  - destruct rest; [|simpl in Hf; lia].
    eapply Hstop; eauto.
  - destruct rest as [|r rs]; [eapply Hstop; eauto|].
    set (rest := r :: rs) in *.
    set (n := Z.to_nat (m * rle_size bpp)).
    set (chunk := firstn n rest).
    set (rest' := skipn n rest).
    set (enc' := literal_runs f (rle_size bpp) m rest').
    assert (Henc : enc = literal_code m :: chunk ++ enc') by reflexivity.
    assert (Hn : (2 <= n)%nat) by (unfold n; nia).
    assert (Hrest : (1 <= length rest)%nat) by (unfold rest; simpl; lia).
    assert (Hchunk : length chunk = Nat.min n (length rest))
      by (unfold chunk; apply length_firstn).
    assert (Hrest' : length rest' = (length rest - n)%nat)
      by (unfold rest'; apply length_skipn).
    assert (Henc' : (length rest <= n)%nat -> length enc' = 0%nat).
    { intros Hle. unfold enc', rest'. rewrite skipn_all2 by lia.
      rewrite literal_runs_nil. reflexivity. }
    assert (Hlen : length enc = S (length chunk + length enc'))
      by (rewrite Henc; simpl; rewrite length_app; reflexivity).
    rewrite length_app in He64, Hr64.
    destruct fuel as [|fuel]; [lia|].
    simpl rle_loop.
    replace (loop_cond s) with true
      by (symmetry; apply loop_cond_true; lia).
    assert (Hwf : wf (pre ++ enc) s).
    { unfold wf, size_t_range. rewrite Hinp, Hisz, Hob, Hout, Hosz.
      rewrite !length_app. lia. }
    assert (Hload : load (pre ++ enc) (inp s) = Some (literal_code m))
      by (rewrite Hinp, Henc; apply load_middle).
    pose proof (literal_code_value m Hm) as Hcode.
    rewrite (rle_body_literal bpp (pre ++ enc) s (literal_code m));
      auto; try lia.
    rewrite Hcode.
    replace (- (1 - m) + 1) with m by lia.
    assert (Hmin : Z.min (m * rle_size bpp) (Z.min (out_size s) (in_size s - 1))
                   = Z.of_nat (length chunk)).
    { rewrite Hosz, Hisz.
      destruct (Nat.le_gt_cases (length rest) n) as [Hle|Hgt].
      - specialize (Henc' Hle). lia.
      - lia. }
    rewrite Hmin.
    assert (Hbytes : bytes_at (pre ++ enc) (inp s + 1)
                       (Z.of_nat (length chunk)) = chunk).
    { rewrite Hinp, Henc.
      replace (pre ++ literal_code m :: chunk ++ enc')
        with ((pre ++ [literal_code m]) ++ chunk ++ enc')
        by (rewrite <- app_assoc; reflexivity).
      replace (Z.of_nat (length pre) + 1)
        with (Z.of_nat (length (pre ++ [literal_code m])))
        by (rewrite length_app; simpl; lia).
      apply bytes_at_middle. }
    rewrite Hbytes, Hob, Hout.
    rewrite write_at_end by lia.
    replace (pre ++ enc) with ((pre ++ literal_code m :: chunk) ++ enc')
      by (rewrite Henc, <- app_assoc; reflexivity).
    destruct (IH fuel (pre ++ literal_code m :: chunk) rest'
                (done ++ chunk) (skipn (length chunk) tail)
                (mkState (inp s + 1 + Z.of_nat (length chunk))
                   (in_size s - 1 - Z.of_nat (length chunk))
                   ((done ++ chunk) ++ skipn (length chunk) tail)
                   (Z.of_nat (length done) + Z.of_nat (length chunk))
                   (out_size s - Z.of_nat (length chunk))))
      as (s' & Hrun & Hres);
      try (cbn [inp in_size out_buf out out_size]; fold enc';
           rewrite ?length_app, ?length_skipn; simpl length; lia).
    + reflexivity.
    + exists s'. split; [exact Hrun|]. rewrite Hres.
      rewrite <- app_assoc. f_equal. apply firstn_skipn.
Qed.

(** With a unit of 0 bytes the decoder never changes the output. *)
Lemma rle_body_unit0 bpp in_buf s s' :
  rle_size bpp = 0 -> wf in_buf s -> loop_cond s = true ->
  rle_body (rle_size bpp) in_buf s = Next s' -> out_buf s' = out_buf s.
Proof.
  intros H0 Hwf Hc Hbody. apply loop_cond_true in Hc. destruct Hc as [Hin Hout].
  pose proof Hwf as (Hi & Hil & His & Ho & Hol & Hos).
  unfold size_t_range in *.
  destruct (load_some in_buf (inp s)) as [b Hb]; [lia|].
  pose proof (to_int8_range (u8 b)) as Hcode.
  destruct (Z.lt_ge_cases (to_int8 (u8 b)) 0) as [Hneg|Hpos].
  - rewrite (rle_body_literal bpp in_buf s b) in Hbody; auto; try lia.
    injection Hbody as <-. cbn [out_buf].
    rewrite H0, Z.mul_0_r, Z.min_l by lia. apply write_at_nil.
  - rewrite (rle_body_repeat bpp in_buf s b) in Hbody; auto; try lia.
    injection Hbody as <-. cbn [out_buf].
    rewrite H0, Z.div_0_r, Z.min_r by lia. apply write_at_nil.
Qed.

Lemma rle_loop_unit0 bpp in_buf :
  rle_size bpp = 0 ->
  forall fuel s e s',
  wf in_buf s ->
  rle_loop fuel (rle_size bpp) in_buf s = Finished e s' ->
  out_buf s' = out_buf s.
Proof.
  intros H0. induction fuel as [|fuel IH]; intros s e s' Hwf Hrun;
    simpl in Hrun; destruct (loop_cond s) eqn:Hc; try discriminate;
    try (injection Hrun as _ <-; reflexivity).
  destruct (rle_body_progress bpp in_buf s Hwf Hc)
    as [(s1 & Hb & Hwf1 & _) | (s1 & Hb & _ & _ & Hob)];
    rewrite Hb in Hrun.
  - rewrite (IH s1 e s' Hwf1 Hrun).
    eapply rle_body_unit0; eauto.
  - injection Hrun as _ <-. exact Hob.
Qed.

(** C5, as amended.  For 4, 8 and 16 bits per pixel, a raw buffer encoded
    as literal runs of [m] units each (2 <= m <= 129, the control byte
    [1 - m]) and decoded into an output buffer of the length of the raw
    buffer gives back the raw bytes. *)
Theorem literal_roundtrip bpp m raw out_buf :
  In (u8 bpp) [4; 8; 16] -> 2 <= m <= 129 ->
  length out_buf = length raw ->
  Z.of_nat (length (literal_encode bpp m raw)) < 2 ^ 64 ->
  Z.of_nat (length raw) < 2 ^ 64 ->
  exists e s',
    rle_decode bpp (literal_encode bpp m raw) out_buf
               (Z.of_nat (length (literal_encode bpp m raw)))
               (Z.of_nat (length raw))
    = Finished e s'
    /\ RLE.out_buf s' = raw.
Proof.
  intros Hbpp Hm Hlen He64 Hr64.
  assert (Hunit : 1 <= rle_size bpp).
  { rewrite rle_size_value.
    destruct Hbpp as [<-|[<-|[<-|[]]]]; vm_compute; discriminate. }
  unfold rle_decode, literal_encode in *.
  destruct (decode_literal_runs bpp m Hunit Hm (length raw)
              (Z.to_nat (Z.of_nat (length
                 (literal_runs (length raw) (rle_size bpp) m raw))))
              [] raw [] out_buf
              (mkState 0
                 (Z.of_nat (length
                    (literal_runs (length raw) (rle_size bpp) m raw)))
                 out_buf 0 (Z.of_nat (length raw))))
    as (s' & Hrun & Hres); auto; try (simpl; lia).
  exists LoopExit, s'. split; [exact Hrun | exact Hres].
Qed.

Lemma literal_roundtrip_witness :
  (In (u8 x10) [4; 8; 16] /\ 2 <= 2 <= 129
   /\ length [x00; x00; x00; x00; x00; x00; x00; x00; x00; x00]
      = length [x01; x02; x03; x04; x05; x06; x07; x08; x09; x0a]
   /\ Z.of_nat (length (literal_encode x10 2
                          [x01; x02; x03; x04; x05; x06; x07; x08; x09; x0a]))
      < 2 ^ 64
   /\ Z.of_nat (length [x01; x02; x03; x04; x05; x06; x07; x08; x09; x0a])
      < 2 ^ 64)
  /\ exists e s',
       rle_decode x10
         (literal_encode x10 2
            [x01; x02; x03; x04; x05; x06; x07; x08; x09; x0a])
         [x00; x00; x00; x00; x00; x00; x00; x00; x00; x00]
         (Z.of_nat (length (literal_encode x10 2
                              [x01; x02; x03; x04; x05; x06; x07; x08; x09; x0a])))
         (Z.of_nat (length [x01; x02; x03; x04; x05; x06; x07; x08; x09; x0a]))
       = Finished e s'
       /\ RLE.out_buf s' = [x01; x02; x03; x04; x05; x06; x07; x08; x09; x0a].
Proof.
  assert (H1 : In (u8 x10) [4; 8; 16]) by (right; right; left; reflexivity).
  assert (H2 : 2 <= 2 <= 129) by lia.
  assert (H3 : length [x00; x00; x00; x00; x00; x00; x00; x00; x00; x00]
               = length [x01; x02; x03; x04; x05; x06; x07; x08; x09; x0a])
    by reflexivity.
  assert (H4 : Z.of_nat (length (literal_encode x10 2
                 [x01; x02; x03; x04; x05; x06; x07; x08; x09; x0a]))
               < 2 ^ 64) by (vm_compute; reflexivity).
  assert (H5 : Z.of_nat (length
                 [x01; x02; x03; x04; x05; x06; x07; x08; x09; x0a])
               < 2 ^ 64) by (vm_compute; reflexivity).
  split; [tauto|].
  exact (literal_roundtrip x10 2
           [x01; x02; x03; x04; x05; x06; x07; x08; x09; x0a]
           [x00; x00; x00; x00; x00; x00; x00; x00; x00; x00]
           H1 H2 H3 H4 H5).
Defined.

(** C5 as stated fails at 1 bit per pixel: the unit is 0 bytes, a literal
    run holds no byte, and no stream at all makes the decoder write. *)
Lemma literal_roundtrip_fails_bpp1 :
  rle_size x01 = 0
  /\ literal_encode x01 2 [x41] = [xff]
  /\ rle_decode x01 (literal_encode x01 2 [x41]) [x00] 1 1
     = Finished LoopExit (mkState 0 1 [x00] 0 1)
  /\ [x00] <> [x41]
  /\ forall enc e s',
       Z.of_nat (length enc) < 2 ^ 64 ->
       rle_decode x01 enc [x00] (Z.of_nat (length enc)) 1 = Finished e s' ->
       RLE.out_buf s' <> [x41].
Proof.
  split; [reflexivity|]. split; [reflexivity|]. split; [reflexivity|].
  split; [discriminate|].
  intros enc e s' H64 Hrun. unfold rle_decode in Hrun.
  apply (rle_loop_unit0 x01 enc) in Hrun; [|reflexivity|].
  - rewrite Hrun. discriminate.
  - unfold wf, size_t_range. cbn. lia.
Qed.

(** ** The header of the first packet *)

Lemma to_uint8_u8 b : to_uint8 (u8 b) = b.
Proof.
  unfold to_uint8. pose proof (u8_range b).
  rewrite Z.mod_small by lia. unfold u8. rewrite N2Z.id, Byte.of_to_N.
  reflexivity.
Qed.

Lemma le_value_range bs :
  0 <= le_value bs < 2 ^ (8 * Z.of_nat (length bs)).
Proof.
  induction bs as [|b bs IH].
  - simpl. lia.
  - cbn [le_value length]. pose proof (u8_range b).
    replace (8 * Z.of_nat (S (length bs)))
      with (8 + 8 * Z.of_nat (length bs)) by lia.
    rewrite Z.pow_add_r by lia. nia.
Qed.

(** C6, as amended.  [data_scan] with the format of the source, "bwhhhhbb",
    and its destinations reads the first packet as: one ignored byte, the
    32-bit size, two ignored 16-bit fields, the 16-bit width at byte
    offset 9, the 16-bit height at byte offset 11, the 8-bit bits-per-pixel
    value at byte offset 13 and one ignored byte. *)
Theorem header_layout buffer sizeof_buffer :
  15 <= sizeof_buffer -> (15 <= length buffer)%nat ->
  scan_header buffer sizeof_buffer
  = Some (mkHeader (le_value (bytes_at buffer 1 4))
                   (le_value (bytes_at buffer 9 2))
                   (le_value (bytes_at buffer 11 2))
                   (nth 13 buffer x00)).
Proof.
  intros Hsz Hlen.
  do 15 (destruct buffer as [|? buffer]; [simpl in Hlen; lia|]).
  assert (Hk : exists k, Z.to_nat sizeof_buffer = (15 + k)%nat)
    by (exists (Z.to_nat sizeof_buffer - 15)%nat; lia).
  destruct Hk as [k Hk]. unfold scan_header. rewrite Hk.
  cbn [firstn Nat.add data_scan field_width Ascii.eqb Bool.eqb length
       Nat.ltb Nat.leb skipn].
  cbn [bytes_at Z.to_nat Pos.to_nat Pos.iter_op Nat.add skipn firstn nth].
  f_equal. f_equal.
  - apply Z.mod_small. apply (le_value_range [_; _; _; _]).
  - apply Z.mod_small. apply (le_value_range [_; _]).
  - apply Z.mod_small. apply (le_value_range [_; _]).
  - cbn [le_value]. rewrite Z.mul_0_r, Z.add_0_r. apply to_uint8_u8.
Qed.

Lemma header_layout_witness :
  (15 <= 254
   /\ (15 <= length ([x00; x0a; x00; x00; x00; x01; x00; x02; x00;
                      x40; x01; xf0; x00; x10; x00] ++ repeat x00 239))%nat)
  /\ scan_header ([x00; x0a; x00; x00; x00; x01; x00; x02; x00;
                   x40; x01; xf0; x00; x10; x00] ++ repeat x00 239) 254
     = Some (mkHeader 10 320 240 x10).
Proof.
  assert (H1 : 15 <= 254) by lia.
  assert (H2 : (15 <= length ([x00; x0a; x00; x00; x00; x01; x00; x02; x00;
                               x40; x01; xf0; x00; x10; x00]
                              ++ repeat x00 239))%nat)
    by (vm_compute; repeat constructor).
  split; [tauto|].
  exact (header_layout _ 254 H1 H2).
Defined.

(** C6 as stated fails: in a packet laid out with the size 10, the width 4,
    the height 2 and 8 bits per pixel, the 16-bit fields at the byte
    offsets 11 and 13 hold 2 and 8, not the width and the height the code
    reads. *)
Lemma header_width_not_at_offset_11 :
  scan_header [x00; x0a; x00; x00; x00; x01; x00; x02; x00;
               x04; x00; x02; x00; x08; x00] 15
  = Some (mkHeader 10 4 2 x08)
  /\ le_value (bytes_at [x00; x0a; x00; x00; x00; x01; x00; x02; x00;
                         x04; x00; x02; x00; x08; x00] 11 2) = 2
  /\ le_value (bytes_at [x00; x0a; x00; x00; x00; x01; x00; x02; x00;
                         x04; x00; x02; x00; x08; x00] 13 2) = 8
  /\ ~ (forall buffer h,
          scan_header buffer (Z.of_nat (length buffer)) = Some h ->
          h_width h = le_value (bytes_at buffer 11 2)
          /\ h_height h = le_value (bytes_at buffer 13 2)).
Proof.
  split; [reflexivity|]. split; [reflexivity|]. split; [reflexivity|].
  intros H.
  specialize (H [x00; x0a; x00; x00; x00; x01; x00; x02; x00;
                 x04; x00; x02; x00; x08; x00] (mkHeader 10 4 2 x08)
                eq_refl).
  destruct H as [H _]. vm_compute in H. discriminate.
Qed.

(** ** The reassembly of the compressed stream *)

Lemma packet_slices_zero pkts maxp :
  1 <= maxp -> packet_slices pkts 0 maxp = [].
Proof.
  intros Hm. induction pkts as [|p pkts IH]; [reflexivity|].
  cbn [packet_slices]. rewrite Z.min_l by lia.
  rewrite Z.sub_0_r, IH. reflexivity.
Qed.

Lemma packet_slices_concat pkts maxp :
  1 <= maxp ->
  (forall p, In p pkts -> Z.of_nat (length p) = maxp) ->
  forall size, 0 <= size ->
  packet_slices pkts size maxp
  = firstn (Z.to_nat size) (concat (map (skipn 1) pkts)).
Proof.
  intros Hm. induction pkts as [|p pkts IH]; intros Hlen size Hsize.
  - simpl. rewrite firstn_nil. reflexivity.
  - cbn [packet_slices map concat].
    assert (Hp : Z.of_nat (length p) = maxp) by (apply Hlen; left; reflexivity).
    assert (Hps : forall q, In q pkts -> Z.of_nat (length q) = maxp)
      by (intros q Hq; apply Hlen; right; exact Hq).
    rewrite firstn_app, length_skipn. unfold bytes_at.
    change (Z.to_nat 1) with 1%nat.
    destruct (Z.le_gt_cases size (maxp - 1)) as [Hle|Hgt].
    + rewrite Z.min_l by lia.
      replace (size - size) with 0 by lia.
      rewrite packet_slices_zero by lia.
      replace (Z.to_nat size - (length p - 1))%nat with 0%nat by lia.
      rewrite firstn_O. reflexivity.
    + rewrite Z.min_r by lia.
      rewrite IH by (auto; lia).
      rewrite (firstn_all2 (n := Z.to_nat (maxp - 1)))
        by (rewrite length_skipn; lia).
      rewrite (firstn_all2 (n := Z.to_nat size))
        by (rewrite length_skipn; lia).
      do 2 f_equal. lia.
Qed.

Lemma firstn_write_at dst p bs :
  0 <= p -> p <= Z.of_nat (length dst) ->
  firstn (Z.to_nat p + length bs) (write_at dst p bs)
  = firstn (Z.to_nat p) dst ++ bs.
Proof.
  intros Hp Hle. unfold write_at.
  assert (HA : length (firstn (Z.to_nat p) dst) = Z.to_nat p)
    by (rewrite length_firstn; lia).
  rewrite app_assoc, firstn_app, length_app, HA, Nat.sub_diag, firstn_O.
  rewrite app_nil_r. apply firstn_all2. rewrite length_app. lia.
Qed.

Lemma packets_needed_zero maxp : 2 <= maxp -> packets_needed 0 maxp = 0%nat.
Proof.
  intros Hm. unfold packets_needed.
  rewrite Z.div_small by lia. reflexivity.
Qed.

Lemma packets_needed_step size maxp :
  2 <= maxp -> 0 < size ->
  packets_needed size maxp
  = S (packets_needed (size - Z.min (maxp - 1) size) maxp).
Proof.
  intros Hm Hs. unfold packets_needed.
  destruct (Z.le_gt_cases size (maxp - 1)) as [Hle|Hgt].
  - rewrite Z.min_r by lia. replace (size - size) with 0 by lia.
    rewrite (Z.div_small (0 + maxp - 2)) by lia.
    replace (size + maxp - 2) with (size - 1 + 1 * (maxp - 1)) by lia.
    rewrite Z.div_add by lia. rewrite Z.div_small by lia. reflexivity.
  - rewrite Z.min_l by lia.
    replace (size + maxp - 2)
      with (size - (maxp - 1) + maxp - 2 + 1 * (maxp - 1)) by lia.
    rewrite Z.div_add by lia.
    assert (0 <= (size - (maxp - 1) + maxp - 2) / (maxp - 1))
      by (apply Z.div_pos; lia).
    lia.
Qed.

Lemma reassemble_spec w maxp :
  2 <= maxp < 2 ^ 64 ->
  forall fuel k tmp tmp_ptr size,
  0 <= size < 2 ^ 32 -> size <= Z.of_nat fuel ->
  0 <= tmp_ptr -> tmp_ptr + size = Z.of_nat (length tmp) ->
  (forall j, (k <= j < k + packets_needed size maxp)%nat ->
             data_read_ret w j = 0
             /\ Z.of_nat (length (data_read_buf w j)) = maxp) ->
  reassemble fuel w (to_size_t (maxp - 1)) k tmp tmp_ptr size
  = Filled (firstn (Z.to_nat tmp_ptr) tmp
            ++ packet_slices (map (data_read_buf w)
                                  (seq k (packets_needed size maxp)))
                             size maxp)
           (k + packets_needed size maxp).
Proof.
  intros Hm. rewrite (to_size_t_id (maxp - 1)) by (unfold size_t_range; lia).
  induction fuel as [|fuel IH]; intros k tmp tmp_ptr size Hs Hf Hp Hlen Hreads.
  - assert (size = 0) as -> by lia. simpl.
    rewrite packets_needed_zero by lia. simpl.
    rewrite app_nil_r, firstn_all2 by lia. f_equal. lia.
  - cbn [reassemble]. destruct (Z.eqb_spec size 0) as [->|Hnz].
    + rewrite packets_needed_zero by lia. simpl.
      rewrite app_nil_r, firstn_all2 by lia. f_equal. lia.
    + rewrite (packets_needed_step size maxp) in * by lia.
      destruct (Hreads k) as [Hret Hbuf]; [lia|].
      rewrite Hret. cbn [Z.eqb negb].
      set (len := if maxp - 1 <? size then maxp - 1 else size).
      assert (Hlen' : len = Z.min (maxp - 1) size)
        by (unfold len; destruct (Z.ltb_spec (maxp - 1) size); lia).
      rewrite memcpy_some by lia.
      assert (Hb : Z.of_nat (length (bytes_at (data_read_buf w k) 1 len)) = len)
        by (apply bytes_at_length; lia).
      assert (H32 : to_uint32 (size - len) = size - len)
        by (apply Z.mod_small; lia).
      rewrite H32, <- Hlen'. rewrite <- Hlen' in Hreads.
      rewrite IH; try lia.
      * cbn [seq map packet_slices].
        replace (Z.min size (maxp - 1)) with len by lia.
        replace (Z.to_nat (tmp_ptr + len))
          with (Z.to_nat tmp_ptr + length (bytes_at (data_read_buf w k) 1 len))%nat
          by lia.
        rewrite firstn_write_at by lia.
        rewrite <- app_assoc. f_equal. lia.
      * rewrite write_at_length; lia.
      * intros j Hj. apply Hreads. lia.
Qed.

Lemma concat_data_length (pkts : list (list byte)) maxp :
  1 <= maxp ->
  (forall p, In p pkts -> Z.of_nat (length p) = maxp) ->
  Z.of_nat (length (concat (map (skipn 1) pkts)))
  = Z.of_nat (length pkts) * (maxp - 1).
Proof.
  intros Hm. induction pkts as [|p pkts IH]; intros Hlen; [reflexivity|].
  cbn [map concat length]. rewrite length_app, length_skipn.
  assert (Hp : Z.of_nat (length p) = maxp) by (apply Hlen; left; reflexivity).
  rewrite Nat2Z.inj_add, IH by (intros q Hq; apply Hlen; right; exact Hq).
  lia.
Qed.

Lemma packets_needed_enough size maxp :
  2 <= maxp -> 0 <= size ->
  size <= Z.of_nat (packets_needed size maxp) * (maxp - 1).
Proof.
  intros Hm Hs. unfold packets_needed.
  assert (0 <= (size + maxp - 2) / (maxp - 1)) by (apply Z.div_pos; lia).
  rewrite Z2Nat.id by lia.
  pose proof (Z.div_mod (size + maxp - 2) (maxp - 1)).
  pose proof (Z.mod_pos_bound (size + maxp - 2) (maxp - 1)).
  nia.
Qed.

(** C4. For every declared size and packets read successfully, the
    reassembly loop takes from each packet the
    [min remaining (max_payload - 1)] bytes from byte offset 1 on; it ends
    with a buffer of exactly the declared size, which is the concatenation,
    in order, of the data of the packets (all but their first byte) cut to
    the declared size.  The packets fill the buffer of
    [packet_max_datasize] bytes, which is at least 2. *)
Theorem reassembly_fills_buffer w size :
  2 <= packet_max_datasize w < 2 ^ 64 -> 0 <= size < 2 ^ 32 ->
  (forall j, (1 <= j <= packets_needed size (packet_max_datasize w))%nat ->
             data_read_ret w j = 0
             /\ Z.of_nat (length (data_read_buf w j)) = packet_max_datasize w) ->
  let maxp := packet_max_datasize w in
  let pkts := map (data_read_buf w) (seq 1 (packets_needed size maxp)) in
  let tmp := packet_slices pkts size maxp in
  reassemble (Z.to_nat size) w (to_size_t (maxp - 1)) 1
             (malloc_bytes w size) 0 size
  = Filled tmp (1 + packets_needed size maxp)
  /\ Z.of_nat (length tmp) = size
  /\ tmp = firstn (Z.to_nat size) (concat (map (skipn 1) pkts)).
Proof.
  intros Hm Hs Hreads maxp pkts tmp.
  assert (Hpk : forall p, In p pkts -> Z.of_nat (length p) = maxp).
  { intros p Hp. unfold pkts in Hp. apply in_map_iff in Hp.
    destruct Hp as (j & <- & Hj). apply in_seq in Hj.
    apply Hreads. fold maxp. lia. }
  assert (Hcat : tmp = firstn (Z.to_nat size) (concat (map (skipn 1) pkts)))
    by (apply packet_slices_concat; [fold maxp; lia | exact Hpk | lia]).
  split; [|split; [|exact Hcat]].
  - rewrite (reassemble_spec w maxp); try (fold maxp; lia).
    + reflexivity.
    + unfold malloc_bytes. rewrite length_map, length_seq. lia.
    + intros j Hj. apply Hreads. fold maxp. lia.
  - rewrite Hcat, length_firstn.
    pose proof (concat_data_length pkts maxp) as Hc.
    assert (Hn : length pkts = packets_needed size maxp)
      by (unfold pkts; rewrite length_map, length_seq; reflexivity).
    rewrite Hn in Hc.
    pose proof (packets_needed_enough size maxp). fold maxp in Hm.
    specialize (Hc ltac:(lia) Hpk). lia.
Qed.

Lemma reassembly_fills_buffer_witness :
  (2 <= 4 < 2 ^ 64 /\ 0 <= 5 < 2 ^ 32
   /\ forall j, (1 <= j <= packets_needed 5 4)%nat ->
        0 = 0
        /\ Z.of_nat (length (match j with
                             | 1%nat => [x01; xa1; xa2; xa3]
                             | 2%nat => [x02; xb1; xb2; xb3]
                             | _ => [x00; x00; x00; x00]
                             end)) = 4)
  /\ reassemble 5
       (mkWorld 4 0 0 (fun _ => 0)
          (fun j => match j with
                    | 1%nat => [x01; xa1; xa2; xa3]
                    | 2%nat => [x02; xb1; xb2; xb3]
                    | _ => [x00; x00; x00; x00]
                    end)
          true true (fun _ => x00))
       3 1 [x00; x00; x00; x00; x00] 0 5
     = Filled [xa1; xa2; xa3; xb1; xb2] 3.
Proof.
  assert (H1 : 2 <= 4 < 2 ^ 64) by lia.
  assert (H2 : 0 <= 5 < 2 ^ 32) by lia.
  assert (H3 : forall j, (1 <= j <= packets_needed 5 4)%nat ->
             0 = 0
             /\ Z.of_nat (length (match j with
                                  | 1%nat => [x01; xa1; xa2; xa3]
                                  | 2%nat => [x02; xb1; xb2; xb3]
                                  | _ => [x00; x00; x00; x00]
                                  end)) = 4).
  { intros j _. split; [reflexivity|].
    destruct j as [|[|[|j]]]; reflexivity. }
  split; [tauto|].
  exact (proj1 (reassembly_fills_buffer
                  (mkWorld 4 0 0 (fun _ => 0)
                     (fun j => match j with
                               | 1%nat => [x01; xa1; xa2; xa3]
                               | 2%nat => [x02; xb1; xb2; xb3]
                               | _ => [x00; x00; x00; x00]
                               end)
                     true true (fun _ => x00))
                  5 H1 H2 H3)).
Defined.

(** ** The connection *)

Lemma at_end_disconnects tmp ret ptr tr r :
  at_end tmp ret ptr tr = Returns r ->
  exists tr', trace r = tr' ++ [Ev_service_disconnect].
Proof.
  unfold at_end. intros H. injection H as <-. cbn [trace].
  rewrite app_assoc. eexists. reflexivity.
Qed.

(** Once the trigger byte is written, every return of
    [nspire_screenshot] comes after [service_disconnect]. *)
Lemma disconnects_after_write success nomem scan_error w r :
  service_connect_ret w = 0 -> data_write8_ret w = 0 ->
  nspire_screenshot success nomem scan_error w = Returns r ->
  exists tr, trace r = tr ++ [Ev_service_disconnect].
Proof.
  intros Hc Hw. unfold nspire_screenshot. rewrite Hc, Hw. cbn [Z.eqb negb].
  unfold at_error_free.
  destruct (negb (data_read_ret w 0 =? 0)); [apply at_end_disconnects|].
  destruct (scan_header _ _) as [h|]; [|apply at_end_disconnects].
  destruct (negb (malloc_tmp_ok w)); [apply at_end_disconnects|].
  destruct (negb (malloc_i_ok w)); [apply at_end_disconnects|].
  destruct (reassemble _ _ _ _ _ _ _) as [tmp k|e k| |]; try discriminate.
  - destruct (rle_decode _ _ _ _ _) as [e s| |]; try discriminate.
    apply at_end_disconnects.
  - apply at_end_disconnects.
Qed.

(** A whole exchange: a header packet declaring 6 bytes for 4 by 2 pixels
    of 8 bits, then one packet with the stream of the scenario. *)
Example screenshot_scenario :
  nspire_screenshot 0 2 6
    (mkWorld 16 0 0 (fun _ => 0)
       (fun k => match k with
                 | O => [x00; x06; x00; x00; x00; x00; x00; x00; x00;
                         x04; x00; x02; x00; x08; x00; x00]
                 | _ => [x01; x00; xaa; xbb; xfe; x11; x22; x00; x00;
                         x00; x00; x00; x00; x00; x00; x00]
                 end)
       true true (fun _ => x00))
  = Returns
      (mkResult 0
         (Some (mkImage 4 2 x08 [xaa; xbb; x11; x22; x00; x00; x00; x00]))
         [Ev_service_connect 0x4024; Ev_data_write8 0; Ev_data_read;
          Ev_malloc 6; Ev_malloc 8; Ev_data_read; Ev_free_tmp;
          Ev_service_disconnect]).
Proof. vm_compute. reflexivity. Qed.

(** C1 fails in the code.  When [service_connect] succeeds and
    [data_write8] fails, [nspire_screenshot] returns the error of the write
    with no image, and the connection is not released: the trace ends with
    the write and holds no [service_disconnect]. *)
Theorem write_failure_leaves_connection
  (success nomem scan_error max_datasize : Z)
  (reads : nat -> Z) (bufs : nat -> list byte) (m1 m2 : bool)
  (junk : nat -> byte) :
  nspire_screenshot success nomem scan_error
    (mkWorld max_datasize 0 (-1) reads bufs m1 m2 junk)
  = Returns (mkResult (-1) None [Ev_service_connect 0x4024; Ev_data_write8 0])
  /\ ~ In Ev_service_disconnect [Ev_service_connect 0x4024; Ev_data_write8 0].
Proof.
  split; [reflexivity|].
  intros [Hin|[Hin|[]]]; discriminate.
Qed.

(** * Further properties *)

(** ** The cursors of the decoder *)

Lemma skipn_write_at dst p bs :
  0 <= p -> p + Z.of_nat (length bs) <= Z.of_nat (length dst) ->
  skipn (Z.to_nat p + length bs) (write_at dst p bs)
  = skipn (Z.to_nat p + length bs) dst.
Proof.
  intros Hp Hle. unfold write_at.
  assert (HA : length (firstn (Z.to_nat p) dst) = Z.to_nat p)
    by (rewrite length_firstn; lia).
  rewrite app_assoc, skipn_app, skipn_all2 by (rewrite length_app; lia).
  rewrite length_app, HA, Nat.sub_diag. reflexivity.
Qed.

Lemma skipn_agree_further (l1 l2 : list byte) a b :
  (a <= b)%nat -> skipn a l1 = skipn a l2 -> skipn b l1 = skipn b l2.
Proof.
  intros Hab H. replace b with ((b - a) + a)%nat by lia.
  rewrite <- !skipn_skipn, H. reflexivity.
Qed.

Lemma rle_body_conserves bpp in_buf s s' :
  wf in_buf s -> loop_cond s = true ->
  rle_body (rle_size bpp) in_buf s = Next s'
  \/ rle_body (rle_size bpp) in_buf s = Ret s' ->
  conserved s s'.
Proof.
  intros Hwf Hc Hbody. apply loop_cond_true in Hc. destruct Hc as [Hin Hout].
  pose proof Hwf as (Hi & Hil & His & Ho & Hol & Hos).
  unfold size_t_range in *.
  pose proof (rle_size_range bpp) as Hu.
  destruct (load_some in_buf (inp s)) as [b Hb]; [lia|].
  pose proof (to_int8_range (u8 b)) as Hcode.
  unfold conserved.
  destruct (Z.lt_ge_cases (to_int8 (u8 b)) 0) as [Hneg|Hpos].
  - rewrite (rle_body_literal bpp in_buf s b) in Hbody; auto; try lia.
    destruct Hbody as [Hbody|Hbody]; [|discriminate].
    injection Hbody as <-. cbn [inp in_size out_buf out out_size].
    set (n := Z.min _ _).
    assert (Hn : 0 <= n) by (unfold n; nia).
    assert (Hlen : Z.of_nat (length (bytes_at in_buf (inp s + 1) n)) = n)
      by (apply bytes_at_length; lia).
    repeat split; try lia.
    replace (Z.to_nat (out s + n))
      with (Z.to_nat (out s) + length (bytes_at in_buf (inp s + 1) n))%nat
      by lia.
    apply skipn_write_at; lia.
  - destruct (Z.lt_ge_cases (in_size s - 1) (rle_size bpp)) as [Hshort|Hroom].
    + rewrite (rle_body_truncated bpp in_buf s b) in Hbody; auto; try lia.
      destruct Hbody as [Hbody|Hbody]; [discriminate|].
      injection Hbody as <-. cbn [inp in_size out_buf out out_size].
      repeat split; lia.
    + rewrite (rle_body_repeat bpp in_buf s b) in Hbody; auto; try lia.
      destruct Hbody as [Hbody|Hbody]; [|discriminate].
      injection Hbody as <-. cbn [inp in_size out_buf out out_size].
      set (k := Z.min _ _).
      destruct (repeat_count_fits k (rle_size bpp) (out_size s)
                  (to_int8 (u8 b) + 1))
        as [Hk0 Hk]; try lia; try reflexivity.
      set (g := bytes_at in_buf (inp s + 1) (rle_size bpp)).
      assert (Hg : Z.of_nat (length g) = rle_size bpp)
        by (apply bytes_at_length; lia).
      assert (Hlen : Z.of_nat (length (concat (repeat g (Z.to_nat k))))
                     = k * rle_size bpp)
        by (rewrite concat_repeat_length; nia).
      repeat split; try nia.
      replace (Z.to_nat (out s + k * rle_size bpp))
        with (Z.to_nat (out s) + length (concat (repeat g (Z.to_nat k))))%nat
        by lia.
      apply skipn_write_at; lia.
Qed.

Lemma conserved_trans in_buf s1 s2 s3 :
  wf in_buf s1 -> conserved s1 s2 -> conserved s2 s3 -> conserved s1 s3.
Proof.
  intros (_ & _ & _ & Ho & _) (A1 & A2 & A3 & A4) (B1 & B2 & B3 & B4).
  unfold conserved. repeat split; try lia.
  rewrite B4. apply (skipn_agree_further _ _ (Z.to_nat (out s2))); [lia|].
  exact A4.
Qed.

Lemma rle_loop_conserves bpp in_buf :
  forall fuel s e s',
  wf in_buf s ->
  rle_loop fuel (rle_size bpp) in_buf s = Finished e s' ->
  conserved s s'.
Proof.
  induction fuel as [|fuel IH]; intros s e s' Hwf Hrun;
    simpl in Hrun; destruct (loop_cond s) eqn:Hc; try discriminate;
    try (injection Hrun as _ <-; unfold conserved; repeat split; lia).
  destruct (rle_body_progress bpp in_buf s Hwf Hc)
    as [(s1 & Hb & Hwf1 & _) | (s1 & Hb & _)];
    pose proof Hb as Hb'; rewrite Hb in Hrun.
  - apply (conserved_trans in_buf s s1 s'); auto.
    + eapply rle_body_conserves; eauto.
    + eapply IH; eauto.
  - injection Hrun as _ <-. eapply rle_body_conserves; eauto.
Qed.

(** X1. Whatever the stream, [rle_decode] ends with each cursor plus its
    remaining length equal to the length it was given: [out] is the number
    of bytes written and [inp] the number of bytes consumed.  The output
    buffer keeps its length, and all its bytes from the final output cursor
    on are the bytes it held before the call. *)
Theorem rle_decode_accounts bpp in_buf out_buf in_size out_size :
  0 <= in_size <= Z.of_nat (length in_buf) -> in_size < 2 ^ 64 ->
  0 <= out_size <= Z.of_nat (length out_buf) -> out_size < 2 ^ 64 ->
  exists e s',
    rle_decode bpp in_buf out_buf in_size out_size = Finished e s'
    /\ 0 <= inp s' /\ 0 <= RLE.in_size s'
    /\ inp s' + RLE.in_size s' = in_size
    /\ 0 <= out s' /\ 0 <= RLE.out_size s'
    /\ out s' + RLE.out_size s' = out_size
    /\ length (RLE.out_buf s') = length out_buf
    /\ skipn (Z.to_nat (out s')) (RLE.out_buf s')
       = skipn (Z.to_nat (out s')) out_buf.
Proof.
  intros Hin Hin64 Hout Hout64. unfold rle_decode.
  set (s0 := mkState 0 in_size out_buf 0 out_size).
  assert (Hwf : wf in_buf s0)
    by (unfold wf, size_t_range, s0; cbn; lia).
  destruct (rle_loop_finishes bpp in_buf (Z.to_nat in_size) s0 Hwf)
    as (e & s' & Hrun & Hwf' & _ & Hlen); [unfold s0; cbn; lia|].
  destruct (rle_loop_conserves bpp in_buf _ _ _ _ Hwf Hrun)
    as (C1 & C2 & C3 & C4).
  destruct Hwf' as (W1 & _ & W3 & W4 & _ & W6).
  unfold size_t_range, s0 in *. cbn [inp RLE.in_size RLE.out_buf out
                                     RLE.out_size] in *.
  exists e, s'. repeat split; auto; lia.
Qed.

Lemma rle_decode_accounts_witness :
  (0 <= 4 <= Z.of_nat (length [x00; xaa; xbb; x7f]) /\ 4 < 2 ^ 64
   /\ 0 <= 5 <= Z.of_nat (length [x01; x02; x03; x04; x05]) /\ 5 < 2 ^ 64)
  /\ exists e s',
       rle_decode x08 [x00; xaa; xbb; x7f] [x01; x02; x03; x04; x05] 4 5
       = Finished e s'
       /\ 0 <= inp s' /\ 0 <= RLE.in_size s'
       /\ inp s' + RLE.in_size s' = 4
       /\ 0 <= out s' /\ 0 <= RLE.out_size s'
       /\ out s' + RLE.out_size s' = 5
       /\ length (RLE.out_buf s') = length [x01; x02; x03; x04; x05]
       /\ skipn (Z.to_nat (out s')) (RLE.out_buf s')
          = skipn (Z.to_nat (out s')) [x01; x02; x03; x04; x05].
Proof.
  assert (H1 : 0 <= 4 <= Z.of_nat (length [x00; xaa; xbb; x7f]))
    by (cbn; lia).
  assert (H2 : 4 < 2 ^ 64) by lia.
  assert (H3 : 0 <= 5 <= Z.of_nat (length [x01; x02; x03; x04; x05]))
    by (cbn; lia).
  assert (H4 : 5 < 2 ^ 64) by lia.
  split; [exact (conj H1 (conj H2 (conj H3 H4)))|].
  exact (rle_decode_accounts x08 [x00; xaa; xbb; x7f]
           [x01; x02; x03; x04; x05] 4 5 H1 H2 H3 H4).
Defined.

(** X2. Below 4 bits per pixel the unit [(bpp * 2) / 8] is 0 bytes, and
    [rle_decode] writes nothing: it ends with the output buffer, the output
    cursor and the output space it was given, whatever the stream. *)
Theorem rle_decode_below_4bpp_writes_nothing
  bpp in_buf out_buf in_size out_size :
  u8 bpp < 4 ->
  0 <= in_size <= Z.of_nat (length in_buf) -> in_size < 2 ^ 64 ->
  0 <= out_size <= Z.of_nat (length out_buf) -> out_size < 2 ^ 64 ->
  exists e s',
    rle_decode bpp in_buf out_buf in_size out_size = Finished e s'
    /\ RLE.out_buf s' = out_buf.
Proof.
  intros Hbpp Hin Hin64 Hout Hout64. unfold rle_decode.
  set (s0 := mkState 0 in_size out_buf 0 out_size).
  assert (Hwf : wf in_buf s0)
    by (unfold wf, size_t_range, s0; cbn; lia).
  assert (H0 : rle_size bpp = 0).
  { rewrite rle_size_value. pose proof (u8_range bpp).
    apply Z.div_small. lia. }
  destruct (rle_loop_finishes bpp in_buf (Z.to_nat in_size) s0 Hwf)
    as (e & s' & Hrun & _); [unfold s0; cbn; lia|].
  exists e, s'. split; [exact Hrun|].
  exact (rle_loop_unit0 bpp in_buf H0 _ _ _ _ Hwf Hrun).
Qed.

Lemma rle_decode_below_4bpp_writes_nothing_witness :
  (u8 x02 < 4
   /\ 0 <= 5 <= Z.of_nat (length [xfe; x11; x22; x03; x44]) /\ 5 < 2 ^ 64
   /\ 0 <= 3 <= Z.of_nat (length [x01; x02; x03]) /\ 3 < 2 ^ 64)
  /\ exists e s',
       rle_decode x02 [xfe; x11; x22; x03; x44] [x01; x02; x03] 5 3
       = Finished e s'
       /\ RLE.out_buf s' = [x01; x02; x03].
Proof.
  assert (H0 : u8 x02 < 4) by (vm_compute; reflexivity).
  assert (H1 : 0 <= 5 <= Z.of_nat (length [xfe; x11; x22; x03; x44]))
    by (cbn; lia).
  assert (H2 : 5 < 2 ^ 64) by lia.
  assert (H3 : 0 <= 3 <= Z.of_nat (length [x01; x02; x03])) by (cbn; lia).
  assert (H4 : 3 < 2 ^ 64) by lia.
  split; [exact (conj H0 (conj H1 (conj H2 (conj H3 H4))))|].
  exact (rle_decode_below_4bpp_writes_nothing x02 [xfe; x11; x22; x03; x44]
           [x01; x02; x03] 5 3 H0 H1 H2 H3 H4).
Defined.

(** ** Streams of complete records *)

Lemma repeat_code_value k :
  0 <= k <= 127 -> to_int8 (u8 (to_uint8 k)) = k.
Proof.
  intros Hk. rewrite u8_to_uint8. unfold to_int8.
  rewrite (Z.mod_small k) by lia. rewrite Z.mod_small; lia.
Qed.

Lemma record_pixels_length unit r :
  record_ok unit r ->
  Z.of_nat (length (record_pixels r))
  = match r with
    | LiteralRun c _ => c * unit
    | RepeatRun k _ => (k + 1) * unit
    end.
Proof.
  destruct r as [c bs|k pat]; intros [Hr Hlen]; cbn [record_pixels].
  - exact Hlen.
  - rewrite concat_repeat_length. nia.
Qed.

(** The body of the loop on a complete record that fits the output. *)
Lemma rle_body_record bpp r pre rest s :
  1 <= rle_size bpp -> record_ok (rle_size bpp) r ->
  wf (pre ++ record_bytes r ++ rest) s ->
  inp s = Z.of_nat (length pre) ->
  Z.of_nat (length (record_bytes r)) <= in_size s ->
  Z.of_nat (length (record_pixels r)) <= out_size s ->
  rle_body (rle_size bpp) (pre ++ record_bytes r ++ rest) s
  = Next (mkState (inp s + Z.of_nat (length (record_bytes r)))
            (in_size s - Z.of_nat (length (record_bytes r)))
            (write_at (out_buf s) (out s) (record_pixels r))
            (out s + Z.of_nat (length (record_pixels r)))
            (out_size s - Z.of_nat (length (record_pixels r)))).
Proof.
  intros Hunit Hok Hwf Hinp Hin Hout.
  pose proof (record_pixels_length _ _ Hok) as Hpx.
  destruct r as [c bs|k pat]; destruct Hok as [Hr Hlen];
    cbn [record_bytes record_pixels length app] in *.
  - assert (Hload : load (pre ++ to_uint8 (1 - c) :: bs ++ rest) (inp s)
                    = Some (literal_code c))
      by (rewrite Hinp; apply load_middle).
    pose proof (literal_code_value c Hr) as Hcode.
    rewrite (rle_body_literal bpp _ s (literal_code c)); auto; try lia.
    rewrite Hcode. replace (- (1 - c) + 1) with c by lia.
    rewrite Z.min_l by lia.
    replace (c * rle_size bpp) with (Z.of_nat (length bs)) by lia.
    assert (Hbytes : bytes_at (pre ++ to_uint8 (1 - c) :: bs ++ rest)
                       (inp s + 1) (Z.of_nat (length bs)) = bs).
    { rewrite Hinp.
      replace (pre ++ to_uint8 (1 - c) :: bs ++ rest)
        with ((pre ++ [to_uint8 (1 - c)]) ++ bs ++ rest)
        by (rewrite <- app_assoc; reflexivity).
      replace (Z.of_nat (length pre) + 1)
        with (Z.of_nat (length (pre ++ [to_uint8 (1 - c)])))
        by (rewrite length_app; simpl; lia).
      apply bytes_at_middle. }
    rewrite Hbytes. do 2 f_equal; lia.
  - assert (Hload : load (pre ++ to_uint8 k :: pat ++ rest) (inp s)
                    = Some (to_uint8 k))
      by (rewrite Hinp; apply load_middle).
    pose proof (repeat_code_value k Hr) as Hcode.
    rewrite (rle_body_repeat bpp _ s (to_uint8 k)); auto; try lia.
    rewrite Hcode.
    assert (Hk : k + 1 <= out_size s / rle_size bpp)
      by (apply Z.div_le_lower_bound; lia).
    rewrite Z.min_l by lia.
    assert (Hbytes : bytes_at (pre ++ to_uint8 k :: pat ++ rest)
                       (inp s + 1) (rle_size bpp) = pat).
    { rewrite Hinp, <- Hlen.
      replace (pre ++ to_uint8 k :: pat ++ rest)
        with ((pre ++ [to_uint8 k]) ++ pat ++ rest)
        by (rewrite <- app_assoc; reflexivity).
      replace (Z.of_nat (length pre) + 1)
        with (Z.of_nat (length (pre ++ [to_uint8 k])))
        by (rewrite length_app; simpl; lia).
      apply bytes_at_middle. }
    rewrite Hbytes. do 2 f_equal; lia.
Qed.

Lemma decode_records bpp :
  1 <= rle_size bpp ->
  forall rs fuel pre done tail s,
  Forall (record_ok (rle_size bpp)) rs ->
  (length (pixels_of rs) <= length tail)%nat ->
  Z.of_nat (length (pre ++ stream_of rs)) < 2 ^ 64 ->
  Z.of_nat (length (done ++ tail)) < 2 ^ 64 ->
  (length (stream_of rs) <= fuel)%nat ->
  inp s = Z.of_nat (length pre) ->
  in_size s = Z.of_nat (length (stream_of rs)) ->
  out_buf s = done ++ tail -> out s = Z.of_nat (length done) ->
  out_size s = Z.of_nat (length tail) ->
  exists s',
    rle_loop fuel (rle_size bpp) (pre ++ stream_of rs) s = Finished LoopExit s'
    /\ out_buf s' = done ++ pixels_of rs ++ skipn (length (pixels_of rs)) tail
    /\ out s' = Z.of_nat (length done + length (pixels_of rs))
    /\ in_size s' = 0.
Proof.
  intros Hunit. induction rs as [|r rs IH];
    intros fuel pre done tail s Hok Hfit He64 Ho64 Hfuel
           Hinp Hisz Hob Hout Hosz.
  - exists s. cbn [stream_of pixels_of map concat length] in *.
    split; [apply rle_loop_exit, loop_cond_false; lia|].
    rewrite skipn_O. simpl. repeat split; auto; lia.
  - inversion Hok as [|r' rs' Hr Hrs]; subst r' rs'.
    change (stream_of (r :: rs)) with (record_bytes r ++ stream_of rs) in *.
    change (pixels_of (r :: rs)) with (record_pixels r ++ pixels_of rs) in *.
    rewrite !length_app in *.
    pose proof (record_pixels_length _ _ Hr) as Hpx.
    assert (Hrb : (2 <= length (record_bytes r))%nat).
    { destruct r as [c bs|k pat]; destruct Hr as [Hr Hlen];
        cbn [record_bytes length]; nia. }
    assert (Hpx1 : (1 <= length (record_pixels r))%nat)
      by (destruct r as [c bs|k pat]; destruct Hr as [Hr Hlen]; nia).
    destruct fuel as [|fuel]; [lia|].
    simpl rle_loop.
    replace (loop_cond s) with true
      by (symmetry; apply loop_cond_true; lia).
    assert (Hwf : wf (pre ++ record_bytes r ++ stream_of rs) s).
    { unfold wf, size_t_range. rewrite Hinp, Hisz, Hob, Hout, Hosz.
      rewrite !length_app. lia. }
    rewrite (rle_body_record bpp r pre (stream_of rs) s); auto; try lia.
    rewrite Hob, Hout. rewrite write_at_end by lia.
    replace (pre ++ record_bytes r ++ stream_of rs)
      with ((pre ++ record_bytes r) ++ stream_of rs)
      by (rewrite <- app_assoc; reflexivity).
    destruct (IH fuel (pre ++ record_bytes r) (done ++ record_pixels r)
                (skipn (length (record_pixels r)) tail)
                (mkState (inp s + Z.of_nat (length (record_bytes r)))
                   (in_size s - Z.of_nat (length (record_bytes r)))
                   ((done ++ record_pixels r)
                      ++ skipn (length (record_pixels r)) tail)
                   (Z.of_nat (length done)
                    + Z.of_nat (length (record_pixels r)))
                   (out_size s - Z.of_nat (length (record_pixels r)))))
      as (s' & Hrun & Hres & Hcur & Hleft);
      try (cbn [inp in_size out_buf out out_size];
           rewrite ?length_app, ?length_skipn; lia).
    + exact Hrs.
    + reflexivity.
    + exists s'. split; [exact Hrun|]. split; [|split; [|exact Hleft]].
      * rewrite Hres, skipn_skipn, <- !app_assoc.
        do 4 f_equal. lia.
      * rewrite Hcur, length_app. lia.
Qed.

(** X3. From 4 bits per pixel on, a stream made of complete records (a
    literal run of 2 to 129 units with all its bytes, or a repeat run with a
    control byte from 0 to 127 and its pattern of one unit) whose raw bytes
    fit the output decodes to exactly those raw bytes: every literal run
    gives its bytes, every repeat run [count + 1] copies of its pattern, in
    order; the stream is consumed to its end and the rest of the output is
    left as it was. *)
Theorem records_decode_to_pixels bpp rs out_buf :
  4 <= u8 bpp ->
  Forall (record_ok (rle_size bpp)) rs ->
  (length (pixels_of rs) <= length out_buf)%nat ->
  Z.of_nat (length (stream_of rs)) < 2 ^ 64 ->
  Z.of_nat (length out_buf) < 2 ^ 64 ->
  exists s',
    rle_decode bpp (stream_of rs) out_buf
               (Z.of_nat (length (stream_of rs))) (Z.of_nat (length out_buf))
    = Finished LoopExit s'
    /\ RLE.out_buf s'
       = pixels_of rs ++ skipn (length (pixels_of rs)) out_buf
    /\ out s' = Z.of_nat (length (pixels_of rs))
    /\ in_size s' = 0.
Proof.
  intros Hbpp Hok Hfit He64 Ho64.
  assert (Hunit : 1 <= rle_size bpp)
    by (rewrite rle_size_value; apply Z.div_le_lower_bound; lia).
  unfold rle_decode.
  destruct (decode_records bpp Hunit rs
              (Z.to_nat (Z.of_nat (length (stream_of rs)))) [] [] out_buf
              (mkState 0 (Z.of_nat (length (stream_of rs))) out_buf 0
                       (Z.of_nat (length out_buf))))
    as (s' & Hrun & Hres & Hcur & Hleft); auto; try (simpl; lia).
  exists s'. simpl in Hrun, Hres, Hcur. auto.
Qed.

Lemma records_decode_to_pixels_witness :
  (4 <= u8 x08
   /\ Forall (record_ok (rle_size x08))
        [RepeatRun 1 [xaa; xbb]; LiteralRun 2 [x01; x02; x03; x04]]
   /\ (length (pixels_of
                 [RepeatRun 1 [xaa; xbb]; LiteralRun 2 [x01; x02; x03; x04]])
       <= length (repeat x55 9))%nat
   /\ Z.of_nat (length (stream_of
                          [RepeatRun 1 [xaa; xbb];
                           LiteralRun 2 [x01; x02; x03; x04]])) < 2 ^ 64
   /\ Z.of_nat (length (repeat x55 9)) < 2 ^ 64)
  /\ exists s',
       rle_decode x08 [x01; xaa; xbb; xff; x01; x02; x03; x04]
                  (repeat x55 9) 8 9
       = Finished LoopExit s'
       /\ RLE.out_buf s' = [xaa; xbb; xaa; xbb; x01; x02; x03; x04; x55]
       /\ out s' = 8
       /\ in_size s' = 0.
Proof.
  assert (H1 : 4 <= u8 x08) by (vm_compute; discriminate).
  assert (H2 : Forall (record_ok (rle_size x08))
                 [RepeatRun 1 [xaa; xbb]; LiteralRun 2 [x01; x02; x03; x04]]).
  { repeat constructor; try (cbn; lia); vm_compute; reflexivity. }
  assert (H3 : (length (pixels_of
                          [RepeatRun 1 [xaa; xbb];
                           LiteralRun 2 [x01; x02; x03; x04]])
                <= length (repeat x55 9))%nat)
    by (vm_compute; repeat constructor).
  assert (H4 : Z.of_nat (length (stream_of
                                   [RepeatRun 1 [xaa; xbb];
                                    LiteralRun 2 [x01; x02; x03; x04]]))
               < 2 ^ 64) by (vm_compute; reflexivity).
  assert (H5 : Z.of_nat (length (repeat x55 9)) < 2 ^ 64)
    by (vm_compute; reflexivity).
  split; [exact (conj H1 (conj H2 (conj H3 (conj H4 H5))))|].
  exact (records_decode_to_pixels x08
           [RepeatRun 1 [xaa; xbb]; LiteralRun 2 [x01; x02; x03; x04]]
           (repeat x55 9) H1 H2 H3 H4 H5).
Defined.

(** ** Failing reads in the reassembly *)

Lemma reassemble_stops_at_error w maxp :
  2 <= maxp < 2 ^ 64 ->
  forall fuel k tmp tmp_ptr size j e,
  0 <= size < 2 ^ 32 -> size <= Z.of_nat fuel ->
  0 <= tmp_ptr -> tmp_ptr + size = Z.of_nat (length tmp) ->
  (j < packets_needed size maxp)%nat ->
  (forall i, (k <= i < k + j)%nat ->
             data_read_ret w i = 0
             /\ Z.of_nat (length (data_read_buf w i)) = maxp) ->
  data_read_ret w (k + j) = e -> e <> 0 ->
  reassemble fuel w (to_size_t (maxp - 1)) k tmp tmp_ptr size
  = ReadError e (S (k + j)).
Proof.
  intros Hm. rewrite (to_size_t_id (maxp - 1)) by (unfold size_t_range; lia).
  induction fuel as [|fuel IH];
    intros k tmp tmp_ptr size j e Hs Hf Hp Hlen Hj Hreads He Hnz.
  - assert (size = 0) as -> by lia.
    rewrite packets_needed_zero in Hj by lia. lia.
  - cbn [reassemble]. destruct (Z.eqb_spec size 0) as [->|Hsz].
    + rewrite packets_needed_zero in Hj by lia. lia.
    + rewrite (packets_needed_step size maxp) in Hj by lia.
      destruct j as [|j].
      * rewrite Nat.add_0_r in *. rewrite He.
        replace (e =? 0) with false by (symmetry; apply Z.eqb_neq; exact Hnz).
        reflexivity.
      * destruct (Hreads k) as [Hret Hbuf]; [lia|].
        rewrite Hret. cbn [Z.eqb negb].
        set (len := if maxp - 1 <? size then maxp - 1 else size).
        assert (Hlen' : len = Z.min (maxp - 1) size)
          by (unfold len; destruct (Z.ltb_spec (maxp - 1) size); lia).
        rewrite <- Hlen' in Hj.
        rewrite memcpy_some by lia.
        assert (Hb : Z.of_nat (length (bytes_at (data_read_buf w k) 1 len))
                     = len)
          by (apply bytes_at_length; lia).
        assert (H32 : to_uint32 (size - len) = size - len)
          by (apply Z.mod_small; lia).
        rewrite H32.
        rewrite (IH (S k) _ _ _ j e); try lia.
        -- f_equal. lia.
        -- rewrite write_at_length; lia.
        -- intros i Hi. apply Hreads. lia.
        -- replace (S k + j)%nat with (k + S j)%nat by lia. exact He.
Qed.

Lemma reassemble_ends w maxp :
  2 <= maxp < 2 ^ 64 ->
  (forall i, data_read_ret w i = 0 ->
             Z.of_nat (length (data_read_buf w i)) = maxp) ->
  forall fuel k tmp tmp_ptr size,
  0 <= size < 2 ^ 32 -> size <= Z.of_nat fuel ->
  0 <= tmp_ptr -> tmp_ptr + size <= Z.of_nat (length tmp) ->
  (exists tmp' k',
      reassemble fuel w (to_size_t (maxp - 1)) k tmp tmp_ptr size
      = Filled tmp' k'
      /\ length tmp' = length tmp /\ (k <= k')%nat)
  \/ (exists e k',
         reassemble fuel w (to_size_t (maxp - 1)) k tmp tmp_ptr size
         = ReadError e k'
         /\ e <> 0 /\ (k < k')%nat).
Proof.
  intros Hm Hfull.
  rewrite (to_size_t_id (maxp - 1)) by (unfold size_t_range; lia).
  induction fuel as [|fuel IH]; intros k tmp tmp_ptr size Hs Hf Hp Hlen.
  - assert (size = 0) as -> by lia. left. exists tmp, k. auto.
  - cbn [reassemble]. destruct (Z.eqb_spec size 0) as [->|Hsz].
    + left. exists tmp, k. auto.
    + destruct (Z.eqb_spec (data_read_ret w k) 0) as [Hret|Hret];
        cbn [negb].
      * specialize (Hfull k Hret).
        set (len := if maxp - 1 <? size then maxp - 1 else size).
        assert (Hlen' : len = Z.min (maxp - 1) size)
          by (unfold len; destruct (Z.ltb_spec (maxp - 1) size); lia).
        rewrite memcpy_some by lia.
        assert (Hb : Z.of_nat (length (bytes_at (data_read_buf w k) 1 len))
                     = len)
          by (apply bytes_at_length; lia).
        assert (Hw : length (write_at tmp tmp_ptr
                               (bytes_at (data_read_buf w k) 1 len))
                     = length tmp)
          by (apply write_at_length; lia).
        assert (H32 : to_uint32 (size - len) = size - len)
          by (apply Z.mod_small; lia).
        rewrite H32.
        destruct (IH (S k) (write_at tmp tmp_ptr
                              (bytes_at (data_read_buf w k) 1 len))
                    (tmp_ptr + len) (size - len))
          as [(tmp' & k' & -> & Hl & Hk) | (e & k' & -> & He & Hk)];
          try lia.
        -- left. exists tmp', k'. repeat split; [congruence | lia].
        -- right. exists e, k'. repeat split; [exact He | lia].
      * right. exists (data_read_ret w k), (S k). repeat split; auto.
Qed.

(** X4. When the reads of the first [j - 1] data packets succeed and the
    read of the [j]-th, one the declared size still needs, fails, the
    reassembly loop stops there with the return value of that read: no later
    packet is read and no buffer is handed on. *)
Theorem reassembly_stops_at_failed_read w size j e :
  2 <= packet_max_datasize w < 2 ^ 64 -> 0 <= size < 2 ^ 32 ->
  (1 <= j <= packets_needed size (packet_max_datasize w))%nat ->
  (forall i, (1 <= i < j)%nat ->
             data_read_ret w i = 0
             /\ Z.of_nat (length (data_read_buf w i)) = packet_max_datasize w) ->
  data_read_ret w j = e -> e <> 0 ->
  reassemble (Z.to_nat size) w (to_size_t (packet_max_datasize w - 1)) 1
             (malloc_bytes w size) 0 size
  = ReadError e (S j).
Proof.
  intros Hm Hs Hj Hreads He Hnz.
  rewrite (reassemble_stops_at_error w _ Hm _ 1%nat _ _ _ (j - 1)%nat e);
    try lia.
  - f_equal. lia.
  - unfold malloc_bytes. rewrite length_map, length_seq. lia.
  - intros i Hi. apply Hreads. lia.
  - replace (1 + (j - 1))%nat with j by lia. exact He.
Qed.

Lemma reassembly_stops_at_failed_read_witness :
  (2 <= 4 < 2 ^ 64 /\ 0 <= 5 < 2 ^ 32
   /\ (1 <= 2 <= packets_needed 5 4)%nat
   /\ (forall i, (1 <= i < 2)%nat ->
         (match i with 2%nat => -1 | _ => 0 end) = 0
         /\ Z.of_nat (length [x01; xa1; xa2; xa3]) = 4)
   /\ -1 = -1 /\ -1 <> 0)
  /\ reassemble 5
       (mkWorld 4 0 0 (fun i => match i with 2%nat => -1 | _ => 0 end)
          (fun _ => [x01; xa1; xa2; xa3]) true true (fun _ => x00))
       3 1 [x00; x00; x00; x00; x00] 0 5
     = ReadError (-1) 3.
Proof.
  assert (H1 : 2 <= 4 < 2 ^ 64) by lia.
  assert (H2 : 0 <= 5 < 2 ^ 32) by lia.
  assert (H3 : (1 <= 2 <= packets_needed 5 4)%nat)
    by (vm_compute; repeat constructor).
  assert (H4 : forall i, (1 <= i < 2)%nat ->
             (match i with 2%nat => -1 | _ => 0 end) = 0
             /\ Z.of_nat (length [x01; xa1; xa2; xa3]) = 4).
  { intros i Hi. split; [|reflexivity].
    destruct i as [|[|i]]; [reflexivity | reflexivity | lia]. }
  assert (H5 : -1 = -1) by reflexivity.
  assert (H6 : -1 <> 0) by discriminate.
  split; [exact (conj H1 (conj H2 (conj H3 (conj H4 (conj H5 H6)))))|].
  exact (reassembly_stops_at_failed_read
           (mkWorld 4 0 0 (fun i => match i with 2%nat => -1 | _ => 0 end)
              (fun _ => [x01; xa1; xa2; xa3]) true true (fun _ => x00))
           5 2 (-1) H1 H2 H3 H4 H5 H6).
Defined.

(** X5. When every successful read fills the packet buffer of at least 2
    bytes, the reassembly loop never copies outside the packet buffer or
    the compressed buffer and ends within [size] iterations, whichever
    reads fail: either the compressed buffer is handed on with its [size]
    bytes, or the loop stops with the nonzero return value of a read. *)
Theorem reassembly_stays_in_bounds w size :
  2 <= packet_max_datasize w < 2 ^ 64 -> 0 <= size < 2 ^ 32 ->
  (forall i, data_read_ret w i = 0 ->
             Z.of_nat (length (data_read_buf w i)) = packet_max_datasize w) ->
  (exists tmp k,
      reassemble (Z.to_nat size) w (to_size_t (packet_max_datasize w - 1)) 1
                 (malloc_bytes w size) 0 size
      = Filled tmp k
      /\ Z.of_nat (length tmp) = size)
  \/ (exists e k,
         reassemble (Z.to_nat size) w
                    (to_size_t (packet_max_datasize w - 1)) 1
                    (malloc_bytes w size) 0 size
         = ReadError e k
         /\ e <> 0).
Proof.
  intros Hm Hs Hfull.
  assert (Hmal : Z.of_nat (length (malloc_bytes w size)) = size)
    by (unfold malloc_bytes; rewrite length_map, length_seq; lia).
  destruct (reassemble_ends w _ Hm Hfull (Z.to_nat size) 1%nat
              (malloc_bytes w size) 0 size)
    as [(tmp & k & Hrun & Hl & _) | (e & k & Hrun & He & _)]; try lia.
  - left. exists tmp, k. split; [exact Hrun | lia].
  - right. exists e, k. split; [exact Hrun | exact He].
Qed.

Lemma reassembly_stays_in_bounds_witness :
  (2 <= 4 < 2 ^ 64 /\ 0 <= 5 < 2 ^ 32
   /\ (forall i, (match i with 2%nat => -1 | _ => 0 end) = 0 ->
         Z.of_nat (length [x01; xa1; xa2; xa3]) = 4))
  /\ ((exists tmp k,
          reassemble 5
            (mkWorld 4 0 0 (fun i => match i with 2%nat => -1 | _ => 0 end)
               (fun _ => [x01; xa1; xa2; xa3]) true true (fun _ => x00))
            3 1 [x00; x00; x00; x00; x00] 0 5
          = Filled tmp k
          /\ Z.of_nat (length tmp) = 5)
      \/ (exists e k,
             reassemble 5
               (mkWorld 4 0 0 (fun i => match i with 2%nat => -1 | _ => 0 end)
                  (fun _ => [x01; xa1; xa2; xa3]) true true (fun _ => x00))
               3 1 [x00; x00; x00; x00; x00] 0 5
             = ReadError e k
             /\ e <> 0)).
Proof.
  assert (H1 : 2 <= 4 < 2 ^ 64) by lia.
  assert (H2 : 0 <= 5 < 2 ^ 32) by lia.
  assert (H3 : forall i : nat,
             (match i with 2%nat => -1 | _ => 0 end) = 0 ->
             Z.of_nat (length [x01; xa1; xa2; xa3]) = 4)
    by (intros i _; reflexivity).
  split; [exact (conj H1 (conj H2 H3))|].
  exact (reassembly_stays_in_bounds
           (mkWorld 4 0 0 (fun i => match i with 2%nat => -1 | _ => 0 end)
              (fun _ => [x01; xa1; xa2; xa3]) true true (fun _ => x00))
           5 H1 H2 H3).
Defined.

(** ** Lengths *)







Lemma malloc_bytes_length w n :
  0 <= n -> Z.of_nat (length (malloc_bytes w n)) = n.
Proof.
  intros Hn. unfold malloc_bytes. rewrite length_map, length_seq. lia.
Qed.

Lemma out_len_of_range h : 0 <= out_len_of h < 2 ^ 64.
Proof. unfold out_len_of, to_size_t. apply Z.mod_pos_bound. lia. Qed.

Lemma scan_header_range buffer n h :
  scan_header buffer n = Some h ->
  0 <= h_size h < 2 ^ 32
  /\ 0 <= h_width h < 2 ^ 16 /\ 0 <= h_height h < 2 ^ 16.
Proof.
  unfold scan_header.
  destruct (data_scan _ _) as [vs|]; [|discriminate].
  do 8 (destruct vs as [|? vs]; try discriminate).
  destruct vs; [|discriminate].
  intros H. injection H as <-. cbn [h_size h_width h_height].
  unfold to_uint32, to_uint16.
  repeat split; apply Z.mod_pos_bound; lia.
Qed.


Lemma reassemble_error_nonzero w maxsize :
  forall fuel k tmp tmp_ptr size e k',
  reassemble fuel w maxsize k tmp tmp_ptr size = ReadError e k' -> e <> 0.
Proof.
  induction fuel as [|fuel IH]; intros k tmp tmp_ptr size e k' H;
    simpl in H; destruct (size =? 0); try discriminate.
  destruct (Z.eqb_spec (data_read_ret w k) 0) as [Hret|Hret]; cbn [negb] in H.
  - destruct (memcpy _ _ _ _ _) as [m|]; [|discriminate].
    eapply IH; eauto.
  - injection H as <- _. exact Hret.
Qed.

(** ** The paths of [nspire_screenshot] *)

Lemma count_events_app p tr1 tr2 :
  count_events p (tr1 ++ tr2)
  = (count_events p tr1 + count_events p tr2)%nat.
Proof. unfold count_events. rewrite filter_app, length_app. reflexivity. Qed.

Lemma count_events_repeat p e n :
  p e = false -> count_events p (repeat e n) = 0%nat.
Proof.
  intros H. unfold count_events.
  induction n as [|n IH]; [reflexivity|]. simpl. rewrite H. exact IH.
Qed.

(** One goal for every way through the function. *)
Ltac screenshot_paths w :=
  unfold nspire_screenshot;
  destruct (Z.eqb_spec (service_connect_ret w) 0) as [Hc|Hc]; cbn [negb];
  [ destruct (Z.eqb_spec (data_write8_ret w) 0) as [Hw|Hw]; cbn [negb];
    [ destruct (Z.eqb_spec (data_read_ret w 0) 0) as [Hr0|Hr0]; cbn [negb];
      [ destruct (scan_header (data_read_buf w 0)
                    (to_size_t (packet_max_datasize w))) as [h|] eqn:Hscan;
        [ destruct (malloc_tmp_ok w) eqn:Hm1; cbn [negb];
          [ destruct (malloc_i_ok w) eqn:Hm2; cbn [negb];
            [ destruct (reassemble _ _ _ _ _ _ _) as [tmp k|e k| |] eqn:Hre;
              [ destruct (rle_decode _ _ _ _ _) as [ex s| |] eqn:Hdec
              | | | ]
            | ]
          | ]
        | ]
      | ]
    | ]
  | ].

Lemma at_end_last tmp ret ptr tr r :
  at_end tmp ret ptr tr = Returns r ->
  count_events is_disconnect tr = 0%nat ->
  exists tr', count_events is_disconnect tr' = 0%nat
              /\ trace r = tr' ++ [Ev_service_disconnect].
Proof.
  unfold at_end. intros H H0. injection H as <-. cbn [trace].
  exists (tr ++ (if tmp then [Ev_free_tmp] else [])).
  split; [|rewrite app_assoc; reflexivity].
  rewrite count_events_app, H0. destruct tmp; reflexivity.
Qed.

(** X6. [service_disconnect] is called exactly once, as the last call,
    on every return after [service_connect] and [data_write8] have both
    succeeded, and not at all on the other returns. *)
Theorem disconnect_once_after_write success nomem scan_error w r :
  nspire_screenshot success nomem scan_error w = Returns r ->
  exists tr,
    count_events is_disconnect tr = 0%nat
    /\ trace r
       = tr ++ (if (service_connect_ret w =? 0) && (data_write8_ret w =? 0)
                then [Ev_service_disconnect] else []).
Proof.
  screenshot_paths w; cbn [andb]; unfold at_error_free;
    try discriminate;
    try (intros H; apply at_end_last in H; [exact H|];
         rewrite ?count_events_app;
         rewrite ?count_events_repeat by reflexivity; reflexivity).
  - intros H. injection H as <-. cbn [trace].
    eexists. split; [|rewrite app_nil_r; reflexivity]. reflexivity.
  - intros H. injection H as <-. cbn [trace].
    eexists. split; [|rewrite app_nil_r; reflexivity]. reflexivity.
Qed.

Lemma disconnect_once_after_write_witness :
  nspire_screenshot 0 2 6
    (mkWorld 16 0 0 (fun k => match k with O => 0 | _ => -1 end)
       (fun _ => [x00; x06; x00; x00; x00; x00; x00; x00; x00;
                  x04; x00; x02; x00; x08; x00; x00])
       true true (fun _ => x00))
  = Returns
      (mkResult (-1) None
         [Ev_service_connect 0x4024; Ev_data_write8 0; Ev_data_read;
          Ev_malloc 6; Ev_malloc 8; Ev_data_read; Ev_free_i;
          Ev_free_tmp; Ev_service_disconnect])
  /\ exists tr,
       count_events is_disconnect tr = 0%nat
       /\ [Ev_service_connect 0x4024; Ev_data_write8 0; Ev_data_read;
           Ev_malloc 6; Ev_malloc 8; Ev_data_read; Ev_free_i;
           Ev_free_tmp; Ev_service_disconnect]
          = tr ++ [Ev_service_disconnect].
Proof.
  assert (H : nspire_screenshot 0 2 6
                (mkWorld 16 0 0 (fun k => match k with O => 0 | _ => -1 end)
                   (fun _ => [x00; x06; x00; x00; x00; x00; x00; x00; x00;
                              x04; x00; x02; x00; x08; x00; x00])
                   true true (fun _ => x00))
              = Returns
                  (mkResult (-1) None
                     [Ev_service_connect 0x4024; Ev_data_write8 0;
                      Ev_data_read; Ev_malloc 6; Ev_malloc 8; Ev_data_read;
                      Ev_free_i; Ev_free_tmp; Ev_service_disconnect]))
    by (vm_compute; reflexivity).
  split; [exact H|].
  exact (disconnect_once_after_write 0 2 6 _ _ H).
Defined.

(** X7. With [NSPIRE_ERR_SUCCESS] equal to 0 and the error values of
    [malloc] failure and of [data_scan] different from 0, the return value
    of [nspire_screenshot] tells whether an image was stored through [ptr]:
    it is 0 exactly when there is one.  No failing path hands out an
    image. *)
Theorem image_exactly_on_success success nomem scan_error w r :
  success = 0 -> nomem <> 0 -> scan_error <> 0 ->
  nspire_screenshot success nomem scan_error w = Returns r ->
  (ret r = 0 <-> ptr r <> None).
Proof.
  intros Hs Hn He.
  screenshot_paths w; unfold at_error_free, at_end; try discriminate;
    intros H; injection H as <-; cbn [ret ptr]; split; intros H;
    try congruence; try lia.
  apply reassemble_error_nonzero in Hre. contradiction.
Qed.

Lemma image_exactly_on_success_witness :
  (0 = 0 /\ 2 <> 0 /\ 6 <> 0
   /\ nspire_screenshot 0 2 6
        (mkWorld 16 0 0 (fun _ => 0) (fun _ => []) true true (fun _ => x00))
      = Returns (mkResult 6 None
                   [Ev_service_connect 0x4024; Ev_data_write8 0;
                    Ev_data_read; Ev_service_disconnect]))
  /\ (6 = 0 <-> @None nspire_image <> None).
Proof.
  assert (H1 : 0 = 0) by reflexivity.
  assert (H2 : 2 <> 0) by discriminate.
  assert (H3 : 6 <> 0) by discriminate.
  assert (H4 : nspire_screenshot 0 2 6
                 (mkWorld 16 0 0 (fun _ => 0) (fun _ => []) true true
                    (fun _ => x00))
               = Returns (mkResult 6 None
                            [Ev_service_connect 0x4024; Ev_data_write8 0;
                             Ev_data_read; Ev_service_disconnect]))
    by (vm_compute; reflexivity).
  split; [exact (conj H1 (conj H2 (conj H3 H4)))|].
  exact (image_exactly_on_success 0 2 6 _ _ H1 H2 H3 H4).
Defined.



Lemma filter_repeat_false (p : event -> bool) e n :
  p e = false -> filter p (repeat e n) = [].
Proof.
  intros H. induction n as [|n IH]; [reflexivity|].
  simpl. rewrite H. exact IH.
Qed.

(** X9. On every return of [nspire_screenshot] the compressed buffer has
    been freed exactly once if its [malloc] was reached and succeeded, and
    not otherwise; the image, if its [malloc] was reached and succeeded,
    has either been freed once or been handed out, never both, and
    otherwise neither. *)
Theorem buffers_freed_or_handed_out success nomem scan_error w r :
  nspire_screenshot success nomem scan_error w = Returns r ->
  count_events is_free_tmp (trace r)
  = (if (1 <=? count_events is_malloc (trace r))%nat && malloc_tmp_ok w
     then 1 else 0)%nat
  /\ (count_events is_free_i (trace r)
      + match ptr r with Some _ => 1 | None => 0 end)%nat
     = (if (2 <=? count_events is_malloc (trace r))%nat && malloc_i_ok w
        then 1 else 0)%nat.
Proof.
  screenshot_paths w; unfold at_error_free, at_end; try discriminate;
    intros H; injection H as <-; cbn [trace ptr]; unfold count_events;
    cbn [filter is_malloc is_free_tmp is_free_i];
    rewrite ?filter_app;
    rewrite ?filter_repeat_false by reflexivity;
    split; reflexivity.
Qed.

Lemma buffers_freed_or_handed_out_witness :
  nspire_screenshot 0 2 6
    (mkWorld 16 0 0 (fun k => match k with O => 0 | _ => -1 end)
       (fun _ => [x00; x06; x00; x00; x00; x00; x00; x00; x00;
                  x04; x00; x02; x00; x08; x00; x00])
       true true (fun _ => x00))
  = Returns
      (mkResult (-1) None
         [Ev_service_connect 0x4024; Ev_data_write8 0; Ev_data_read;
          Ev_malloc 6; Ev_malloc 8; Ev_data_read; Ev_free_i;
          Ev_free_tmp; Ev_service_disconnect])
  /\ (1 = 1 /\ 1 + 0 = 1)%nat.
Proof.
  assert (H : nspire_screenshot 0 2 6
                (mkWorld 16 0 0 (fun k => match k with O => 0 | _ => -1 end)
                   (fun _ => [x00; x06; x00; x00; x00; x00; x00; x00; x00;
                              x04; x00; x02; x00; x08; x00; x00])
                   true true (fun _ => x00))
              = Returns
                  (mkResult (-1) None
                     [Ev_service_connect 0x4024; Ev_data_write8 0;
                      Ev_data_read; Ev_malloc 6; Ev_malloc 8; Ev_data_read;
                      Ev_free_i; Ev_free_tmp; Ev_service_disconnect]))
    by (vm_compute; reflexivity).
  split; [exact H|].
  exact (buffers_freed_or_handed_out 0 2 6 _ _ H).
Defined.

(** ** Whole exchanges *)

(** X10. When the packet buffer has at least 2 bytes, every successful
    read fills it, and the product [width * height * bpp] of a parsed header
    fits an [int], [nspire_screenshot] always returns: whatever the device
    sends and whichever call fails, no copy leaves a buffer, the reassembly
    ends within [size] iterations and the decoder within [in_len]. *)
Theorem nspire_screenshot_returns success nomem scan_error w :
  2 <= packet_max_datasize w < 2 ^ 64 ->
  (forall i, data_read_ret w i = 0 ->
             Z.of_nat (length (data_read_buf w i)) = packet_max_datasize w) ->
  (forall h,
      scan_header (data_read_buf w 0) (to_size_t (packet_max_datasize w))
      = Some h ->
      h_width h * h_height h * u8 (h_bpp h) < 2 ^ 31) ->
  exists r, nspire_screenshot success nomem scan_error w = Returns r.
Proof.
  intros Hm Hfull Hno.
  screenshot_paths w; unfold at_error_free, at_end;
    try (eexists; reflexivity); exfalso.
  all: destruct (scan_header_range _ _ _ Hscan) as (Hsz & _).
  all: destruct (reassemble_ends w _ Hm Hfull (Z.to_nat (h_size h)) 1%nat
                   (malloc_bytes w (h_size h)) 0 (h_size h))
         as [(tmp' & k' & Hrun & Hl & _) | (e' & k' & Hrun & _)];
       try lia; try (rewrite malloc_bytes_length; lia);
       rewrite Hrun in Hre; try discriminate.
  all: injection Hre as <- <-.
  all: fold (out_len_of h) in Hdec; pose proof (out_len_of_range h) as Hol.
  all: pose proof (malloc_bytes_length w (h_size h) (proj1 Hsz)) as Hl1.
  all: pose proof (malloc_bytes_length w (out_len_of h) (proj1 Hol)) as Hl2.
  all: unfold rle_decode in Hdec.
  all: destruct (rle_loop_finishes (h_bpp h) tmp' (Z.to_nat (h_size h))
                   (mkState 0 (h_size h) (malloc_bytes w (out_len_of h)) 0
                            (out_len_of h)))
         as (e & s' & Hfin & _);
       [unfold wf, size_t_range; cbn [inp in_size out_buf out out_size]; lia
       |cbn [in_size]; lia
       |rewrite Hfin in Hdec; discriminate].
Qed.

Lemma nspire_screenshot_returns_witness :
  (2 <= 16 < 2 ^ 64
   /\ (forall i : nat,
         0 = 0 ->
         Z.of_nat (length (match i with
                           | O => [x00; x06; x00; x00; x00; x00; x00; x00;
                                   x00; x04; x00; x02; x00; x08; x00; x00]
                           | _ => [x01; x00; xaa; xbb; xfe; x11; x22; x00;
                                   x00; x00; x00; x00; x00; x00; x00; x00]
                           end)) = 16)
   /\ (forall h,
         scan_header [x00; x06; x00; x00; x00; x00; x00; x00;
                      x00; x04; x00; x02; x00; x08; x00; x00] (to_size_t 16)
         = Some h ->
         h_width h * h_height h * u8 (h_bpp h) < 2 ^ 31))
  /\ exists r,
       nspire_screenshot 0 2 6
         (mkWorld 16 0 0 (fun _ => 0)
            (fun i => match i with
                      | O => [x00; x06; x00; x00; x00; x00; x00; x00;
                              x00; x04; x00; x02; x00; x08; x00; x00]
                      | _ => [x01; x00; xaa; xbb; xfe; x11; x22; x00;
                              x00; x00; x00; x00; x00; x00; x00; x00]
                      end)
            true true (fun _ => x00))
       = Returns r.
Proof.
  assert (H1 : 2 <= 16 < 2 ^ 64) by lia.
  assert (H2 : forall i : nat,
             0 = 0 ->
             Z.of_nat (length (match i with
                               | O => [x00; x06; x00; x00; x00; x00; x00;
                                       x00; x00; x04; x00; x02; x00; x08;
                                       x00; x00]
                               | _ => [x01; x00; xaa; xbb; xfe; x11; x22;
                                       x00; x00; x00; x00; x00; x00; x00;
                                       x00; x00]
                               end)) = 16)
    by (intros [|i] _; reflexivity).
  assert (H3 : forall h,
             scan_header [x00; x06; x00; x00; x00; x00; x00; x00;
                          x00; x04; x00; x02; x00; x08; x00; x00]
                         (to_size_t 16)
             = Some h ->
             h_width h * h_height h * u8 (h_bpp h) < 2 ^ 31).
  { intros h Hh. vm_compute in Hh. injection Hh as <-.
    vm_compute. reflexivity. }
  split; [exact (conj H1 (conj H2 H3))|].
  exact (nspire_screenshot_returns 0 2 6
           (mkWorld 16 0 0 (fun _ => 0)
              (fun i => match i with
                        | O => [x00; x06; x00; x00; x00; x00; x00; x00;
                                x00; x04; x00; x02; x00; x08; x00; x00]
                        | _ => [x01; x00; xaa; xbb; xfe; x11; x22; x00;
                                x00; x00; x00; x00; x00; x00; x00; x00]
                        end)
              true true (fun _ => x00))
           H1 H2 H3).
Defined.







(** ** Calls that are not made *)

Lemma reassemble_reads_bound w maxp :
  2 <= maxp < 2 ^ 64 ->
  forall fuel k tmp tmp_ptr size k',
  0 <= size < 2 ^ 32 ->
  (exists t, reassemble fuel w (to_size_t (maxp - 1)) k tmp tmp_ptr size
             = Filled t k')
  \/ (exists e, reassemble fuel w (to_size_t (maxp - 1)) k tmp tmp_ptr size
                = ReadError e k') ->
  (k' <= k + packets_needed size maxp)%nat.
Proof.
  intros Hm. rewrite (to_size_t_id (maxp - 1)) by (unfold size_t_range; lia).
  induction fuel as [|fuel IH]; intros k tmp tmp_ptr size k' Hs H;
    cbn [reassemble] in H; destruct (Z.eqb_spec size 0) as [->|Hsz].
  - destruct H as [[t H]|[e H]]; [injection H as _ <-; lia | discriminate H].
  - destruct H as [[t H]|[e H]]; discriminate H.
  - destruct H as [[t H]|[e H]]; [injection H as _ <-; lia | discriminate H].
  - rewrite (packets_needed_step size maxp) by lia.
    destruct (negb (data_read_ret w k =? 0)).
    + destruct H as [[t H]|[e H]]; [discriminate H | injection H as _ <-; lia].
    + set (len := if maxp - 1 <? size then maxp - 1 else size) in *.
      assert (Hlen' : len = Z.min (maxp - 1) size)
        by (unfold len; destruct (Z.ltb_spec (maxp - 1) size); lia).
      rewrite <- Hlen'.
      destruct (memcpy tmp tmp_ptr (data_read_buf w k) 1 len) as [m|].
      * assert (H32 : to_uint32 (size - len) = size - len)
          by (apply Z.mod_small; lia).
        rewrite H32 in H. apply IH in H; lia.
      * destruct H as [[t H]|[e H]]; discriminate H.
Qed.

(** X13. [nspire_screenshot] never reads more packets than the header
    asks for: on every return it has called [data_read] at most once for
    the header and once for each of the
    [ceil (size / (packet_max_datasize - 1))] packets of the declared size,
    and only once when no header was parsed. *)
Theorem reads_bounded_by_declared_size success nomem scan_error w r :
  2 <= packet_max_datasize w < 2 ^ 64 ->
  nspire_screenshot success nomem scan_error w = Returns r ->
  (count_events is_data_read (trace r)
   <= 1 + match scan_header (data_read_buf w 0)
                  (to_size_t (packet_max_datasize w)) with
          | Some h => packets_needed (h_size h) (packet_max_datasize w)
          | None => 0
          end)%nat.
Proof.
  intros Hm.
  screenshot_paths w; unfold at_error_free, at_end; try discriminate;
    intros H; injection H as <-; cbn [trace]; unfold count_events;
    cbn [filter is_data_read];
    rewrite ?filter_app; cbn [filter is_data_read app length];
    try lia.
  all: destruct (scan_header_range _ _ _ Hscan) as (Hsz & _).
  all: assert (Hk : (k <= 1 + packets_needed (h_size h)
                                  (packet_max_datasize w))%nat)
         by (apply (reassemble_reads_bound w _ Hm (Z.to_nat (h_size h)) 1%nat
                      (malloc_bytes w (h_size h)) 0 (h_size h) k Hsz);
             eauto).
  all: rewrite ?length_app.
  all: assert (Hf : filter is_data_read (repeat Ev_data_read (k - 1))
                    = repeat Ev_data_read (k - 1))
         by (clear; induction (k - 1)%nat as [|n IH];
             [reflexivity | simpl; rewrite IH; reflexivity]).
  all: rewrite Hf, repeat_length; cbn [length]; lia.
Qed.

Lemma reads_bounded_by_declared_size_witness :
  (2 <= 16 < 2 ^ 64
   /\ nspire_screenshot 0 2 6
        (mkWorld 16 0 0 (fun _ => 0)
           (fun k => match k with
                     | O => [x00; x06; x00; x00; x00; x00; x00; x00; x00;
                             x04; x00; x02; x00; x08; x00; x00]
                     | _ => [x01; x00; xaa; xbb; xfe; x11; x22; x00; x00;
                             x00; x00; x00; x00; x00; x00; x00]
                     end)
           true true (fun _ => x00))
      = Returns
          (mkResult 0
             (Some (mkImage 4 2 x08 [xaa; xbb; x11; x22; x00; x00; x00; x00]))
             [Ev_service_connect 0x4024; Ev_data_write8 0; Ev_data_read;
              Ev_malloc 6; Ev_malloc 8; Ev_data_read; Ev_free_tmp;
              Ev_service_disconnect]))
  /\ (2 <= 1 + 1)%nat.
Proof.
  assert (H1 : 2 <= 16 < 2 ^ 64) by lia.
  assert (H2 : nspire_screenshot 0 2 6
        (mkWorld 16 0 0 (fun _ => 0)
           (fun k => match k with
                     | O => [x00; x06; x00; x00; x00; x00; x00; x00; x00;
                             x04; x00; x02; x00; x08; x00; x00]
                     | _ => [x01; x00; xaa; xbb; xfe; x11; x22; x00; x00;
                             x00; x00; x00; x00; x00; x00; x00]
                     end)
           true true (fun _ => x00))
      = Returns
          (mkResult 0
             (Some (mkImage 4 2 x08 [xaa; xbb; x11; x22; x00; x00; x00; x00]))
             [Ev_service_connect 0x4024; Ev_data_write8 0; Ev_data_read;
              Ev_malloc 6; Ev_malloc 8; Ev_data_read; Ev_free_tmp;
              Ev_service_disconnect]))
    by (vm_compute; reflexivity).
  split; [exact (conj H1 H2)|].
  exact (reads_bounded_by_declared_size 0 2 6
           (mkWorld 16 0 0 (fun _ => 0)
              (fun k => match k with
                        | O => [x00; x06; x00; x00; x00; x00; x00; x00; x00;
                                x04; x00; x02; x00; x08; x00; x00]
                        | _ => [x01; x00; xaa; xbb; xfe; x11; x22; x00; x00;
                                x00; x00; x00; x00; x00; x00; x00]
                        end)
              true true (fun _ => x00))
           _ H1 H2).
Defined.

(** X14. Nothing is allocated before the header is known: a return of
    [nspire_screenshot] after a call of [malloc] means that connect, the
    trigger write and the read of the first packet succeeded and that the
    header was parsed. *)
Theorem allocation_only_after_header success nomem scan_error w r :
  nspire_screenshot success nomem scan_error w = Returns r ->
  (0 < count_events is_malloc (trace r))%nat ->
  service_connect_ret w = 0 /\ data_write8_ret w = 0
  /\ data_read_ret w 0 = 0
  /\ exists h,
       scan_header (data_read_buf w 0) (to_size_t (packet_max_datasize w))
       = Some h.
Proof.
  screenshot_paths w; unfold at_error_free, at_end; try discriminate;
    intros H; injection H as <-; cbn [trace]; unfold count_events;
    cbn [filter is_malloc app length]; intros Hpos;
    try (exfalso; lia); eauto.
Qed.

Lemma allocation_only_after_header_witness :
  (nspire_screenshot 0 2 6
     (mkWorld 16 0 0 (fun _ => 0)
        (fun _ => [x00; x06; x00; x00; x00; x00; x00; x00; x00;
                   x04; x00; x02; x00; x08; x00; x00])
        false true (fun _ => x00))
   = Returns
       (mkResult (-2) None
          [Ev_service_connect 0x4024; Ev_data_write8 0; Ev_data_read;
           Ev_malloc 6; Ev_service_disconnect])
   /\ (0 < 1)%nat)
  /\ 0 = 0 /\ 0 = 0 /\ 0 = 0
  /\ exists h,
       scan_header [x00; x06; x00; x00; x00; x00; x00; x00; x00;
                    x04; x00; x02; x00; x08; x00; x00] (to_size_t 16)
       = Some h.
Proof.
  assert (H1 : nspire_screenshot 0 2 6
     (mkWorld 16 0 0 (fun _ => 0)
        (fun _ => [x00; x06; x00; x00; x00; x00; x00; x00; x00;
                   x04; x00; x02; x00; x08; x00; x00])
        false true (fun _ => x00))
   = Returns
       (mkResult (-2) None
          [Ev_service_connect 0x4024; Ev_data_write8 0; Ev_data_read;
           Ev_malloc 6; Ev_service_disconnect]))
    by (vm_compute; reflexivity).
  assert (H2 : (0 < 1)%nat) by constructor.
  split; [exact (conj H1 H2)|].
  exact (allocation_only_after_header 0 2 6 _ _ H1 H2).
Defined.

(** X15. When the exchange gets as far as the allocations and one of the
    two fails, [nspire_screenshot] returns [-NSPIRE_ERR_NOMEM] and no
    image without reading a further packet: after a failure of the first
    [malloc] it only disconnects, after a failure of the second it frees
    the compressed buffer and disconnects. *)
Theorem allocation_failure_returns_nomem success nomem scan_error w h :
  service_connect_ret w = 0 -> data_write8_ret w = 0 ->
  data_read_ret w 0 = 0 ->
  scan_header (data_read_buf w 0) (to_size_t (packet_max_datasize w))
  = Some h ->
  malloc_tmp_ok w = false \/ malloc_i_ok w = false ->
  nspire_screenshot success nomem scan_error w
  = Returns
      (mkResult (- nomem) None
         ([Ev_service_connect 0x4024; Ev_data_write8 0; Ev_data_read;
           Ev_malloc (h_size h)]
          ++ (if malloc_tmp_ok w
              then [Ev_malloc (out_len_of h); Ev_free_tmp] else [])
          ++ [Ev_service_disconnect])).
Proof.
  intros Hc Hw Hr0 Hscan Hfail.
  unfold nspire_screenshot. rewrite Hc, Hw, Hr0, Hscan. cbn [Z.eqb negb].
  unfold at_end. fold (out_len_of h).
  destruct (malloc_tmp_ok w); cbn [negb]; [|reflexivity].
  destruct Hfail as [Hf|Hf]; [discriminate Hf|].
  rewrite Hf. reflexivity.
Qed.

Lemma allocation_failure_returns_nomem_witness :
  (0 = 0 /\ 0 = 0 /\ 0 = 0
   /\ scan_header [x00; x06; x00; x00; x00; x00; x00; x00; x00;
                   x04; x00; x02; x00; x08; x00; x00] (to_size_t 16)
      = Some (mkHeader 6 4 2 x08)
   /\ (true = false \/ false = false))
  /\ nspire_screenshot 0 2 6
       (mkWorld 16 0 0 (fun _ => 0)
          (fun _ => [x00; x06; x00; x00; x00; x00; x00; x00; x00;
                     x04; x00; x02; x00; x08; x00; x00])
          true false (fun _ => x00))
     = Returns
         (mkResult (-2) None
            [Ev_service_connect 0x4024; Ev_data_write8 0; Ev_data_read;
             Ev_malloc 6; Ev_malloc 8; Ev_free_tmp; Ev_service_disconnect]).
Proof.
  assert (H1 : 0 = 0) by reflexivity.
  assert (H4 : scan_header [x00; x06; x00; x00; x00; x00; x00; x00; x00;
                            x04; x00; x02; x00; x08; x00; x00] (to_size_t 16)
               = Some (mkHeader 6 4 2 x08)) by (vm_compute; reflexivity).
  assert (H5 : true = false \/ false = false) by (right; reflexivity).
  split; [exact (conj H1 (conj H1 (conj H1 (conj H4 H5))))|].
  exact (allocation_failure_returns_nomem 0 2 6
           (mkWorld 16 0 0 (fun _ => 0)
              (fun _ => [x00; x06; x00; x00; x00; x00; x00; x00; x00;
                         x04; x00; x02; x00; x08; x00; x00])
              true false (fun _ => x00))
           (mkHeader 6 4 2 x08) H1 H1 H1 H4 H5).
Defined.
